(** * funcnodes_core: node triggering, event emitter and shelf library

    A shallow embedding of the parts of [funcnodes_core] that drive a node's
    trigger cycle ([node.py]), the listener dispatch of
    [EventEmitterMixin] ([eventmanager.py]), the class registry
    ([register_node]) and the flat shelf store of [Library] ([lib/lib.py]). *)

From Stdlib Require Import List Bool String Arith Lia QArith.
Import ListNotations.

(* ------------------------------------------------------------------------- *)
(** ** Python dicts and lists *)

Module PyDict.

Section Dict.
Variables K V : Type.
Variable eqb : K -> K -> bool.

(** A Python dict in insertion order: assigning an existing key keeps its
    position, a new key goes to the end; [del] drops the key. *)
Fixpoint dict_get (d : list (K * V)) (k : K) : option V :=
  match d with
  | [] => None
  | (k', v) :: d' => if eqb k k' then Some v else dict_get d' k
  end.

Fixpoint dict_set (d : list (K * V)) (k : K) (v : V) : list (K * V) :=
  match d with
  | [] => [(k, v)]
  | (k', v') :: d' => if eqb k k' then (k', v) :: d' else (k', v') :: dict_set d' k v
  end.

Fixpoint dict_del (d : list (K * V)) (k : K) : list (K * V) :=
  match d with
  | [] => []
  | (k', v') :: d' => if eqb k k' then d' else (k', v') :: dict_del d' k
  end.

End Dict.

Arguments dict_get {K V} eqb d k.
Arguments dict_set {K V} eqb d k v.
Arguments dict_del {K V} eqb d k.

(** Python's [x in lst] and [lst.remove(x)] (first occurrence). *)
Fixpoint py_in {A} (eqb : A -> A -> bool) (x : A) (l : list A) : bool :=
  match l with [] => false | y :: l' => eqb x y || py_in eqb x l' end.

Fixpoint py_remove {A} (eqb : A -> A -> bool) (x : A) (l : list A) : list A :=
  match l with [] => [] | y :: l' => if eqb x y then l' else y :: py_remove eqb x l' end.

End PyDict.

(* ------------------------------------------------------------------------- *)
(** ** Node trigger state ([node.py]) *)

Module NodeTrigger.

(** Modelled from the spec: [TriggerStack] is not part of the sources; the
    node only asks it [done()], i.e. whether every scheduled task of the
    stack has finished.  A stack is the list of its tasks' done flags. *)
Record TriggerStack := mkStack { ts_tasks : list bool }.

Definition stack_done (ts : TriggerStack) : bool := forallb (fun b => b) (ts_tasks ts).

(** The fields of a [Node] instance that the trigger cycle reads and writes,
    plus whether [asyncio.get_running_loop()] succeeds and the value each
    declared input reports from [ready()]. *)
Record NodeState := mkNode {
  loop_running : bool;
  inputs_ready_flags : list bool;
  _triggerstack : option TriggerStack;
  _trigger_open : bool;
  _requests_trigger : bool
}.

Definition set_triggerstack (n : NodeState) (t : option TriggerStack) : NodeState :=
  mkNode (loop_running n) (inputs_ready_flags n) t (_trigger_open n) (_requests_trigger n).

(** [Node.in_trigger]: drops a finished stack, then reports whether a stack
    is still present or the [_trigger_open] flag is set. *)
Definition in_trigger (n : NodeState) : bool * NodeState :=
  let n' := match _triggerstack n with
            | Some ts => if stack_done ts then set_triggerstack n None else n
            | None => n
            end in
  (match _triggerstack n' with Some _ => true | None => false end || _trigger_open n', n').

(** [Node.inputs_ready] / [Node.ready]: [all(map(lambda x: x.ready(), self._inputs))]. *)
Definition inputs_ready (n : NodeState) : bool := forallb (fun b => b) (inputs_ready_flags n).

Definition ready (n : NodeState) : bool := inputs_ready n.

(** [Node.ready_to_trigger]: [False] without a running loop, otherwise
    [self.ready() and not self.in_trigger] (short-circuit: [in_trigger] is
    only evaluated when the node is ready). *)
Definition ready_to_trigger (n : NodeState) : bool * NodeState :=
  if negb (loop_running n) then (false, n)
  else if ready n then
    let (b, n') := in_trigger n in (negb b, n')
  else (false, n).

Inductive TriggerError := InTriggerError.

(** Outcome of a Python call that may raise: the raised error or the
    returned value, each with the node state at that point. *)
Inductive Outcome (A : Type) :=
| Raised : TriggerError -> NodeState -> Outcome A
| Returned : A -> NodeState -> Outcome A.
Arguments Raised {A}.
Arguments Returned {A}.

(** [Node.trigger] (body of the decorated method): raise when in trigger,
    otherwise open the trigger, attach the (possibly fresh) stack, append the
    task scheduled for [self()] (not yet done) and clear the request flag. *)
Definition trigger (triggerstack : option TriggerStack) (n : NodeState) : Outcome TriggerStack :=
  let (busy, n1) := in_trigger n in
  if busy then Raised InTriggerError n1
  else
    let ts := match triggerstack with Some t => t | None => mkStack [] end in
    let ts' := mkStack (ts_tasks ts ++ [false]) in
    Returned ts' (mkNode (loop_running n1) (inputs_ready_flags n1) (Some ts') true false).

Definition set_requests_trigger (n : NodeState) (b : bool) : NodeState :=
  mkNode (loop_running n) (inputs_ready_flags n) (_triggerstack n) (_trigger_open n) b.

(** [Node.request_trigger] (body of the decorated method): trigger when
    ready to, do nothing while the trigger window is open, otherwise note
    the request. *)
Definition request_trigger (n : NodeState) : Outcome unit :=
  let (r, n1) := ready_to_trigger n in
  if r then
    match trigger None n1 with
    | Raised e n2 => Raised e n2
    | Returned _ n2 => Returned tt n2
    end
  else if _trigger_open n1 then Returned tt n1
  else Returned tt (set_requests_trigger n1 true).

(** [Node.trigger_if_requested]: [self._requests_trigger and
    self.ready_to_trigger()], short-circuit. *)
Definition trigger_if_requested (triggerstack : option TriggerStack) (n : NodeState) : Outcome bool :=
  if _requests_trigger n then
    let (r, n1) := ready_to_trigger n in
    if r then
      match trigger triggerstack n1 with
      | Raised e n2 => Raised e n2
      | Returned _ n2 => Returned true n2
      end
    else Returned false n1
  else Returned false n.

(** [Node.will_trigger]: [True], or [None] when the [if] fails. *)
Definition will_trigger (n : NodeState) : option bool * NodeState :=
  let (r, n1) := ready_to_trigger n in
  if r && _requests_trigger n1 then (Some true, n1) else (None, n1).

(** [Node.in_trigger_soon]: [self.in_trigger or self.will_trigger], as the
    truth value the caller tests. *)
Definition in_trigger_soon (n : NodeState) : bool * NodeState :=
  let (b, n1) := in_trigger n in
  if b then (true, n1)
  else let (w, n2) := will_trigger n1 in
       (match w with Some true => true | _ => false end, n2).

End NodeTrigger.

(* ------------------------------------------------------------------------- *)
(** ** Pretrigger delay ([Node.__init__] and the [pretrigger_delay] setter) *)

Module PretriggerDelay.

(** Python floats as far as the comparisons of the delay code see them: a
    finite value or NaN, for which every ordered comparison is [False]. *)
Inductive pyfloat :=
| Num : Q -> pyfloat
| NaN : pyfloat.

Definition py_ge (a b : pyfloat) : bool :=
  match a, b with Num x, Num y => Qle_bool y x | _, _ => false end.

Definition py_lt (a b : pyfloat) : bool :=
  match a, b with Num x, Num y => negb (Qle_bool y x) | _, _ => false end.

Definition zero : pyfloat := Num 0.

(** [Node.__init__]: [float(pretrigger_delay)] when it is given and [>= 0],
    otherwise [float(self.default_pretrigger_delay)]. *)
Definition init_pretrigger_delay (default_pretrigger_delay : pyfloat)
    (pretrigger_delay : option pyfloat) : pyfloat :=
  match pretrigger_delay with
  | Some v => if py_ge v zero then v else default_pretrigger_delay
  | None => default_pretrigger_delay
  end.

Inductive SetterResult :=
| SetValueError : pyfloat -> SetterResult   (** raised; the stored delay *)
| SetOk : pyfloat -> SetterResult.          (** the new stored delay *)

(** The [pretrigger_delay] setter: [None] becomes the class default, a
    value [< 0] raises [ValueError] (nothing is stored), anything else is
    stored. *)
Definition set_pretrigger_delay (default_pretrigger_delay : pyfloat)
    (stored : pyfloat) (value : option pyfloat) : SetterResult :=
  let v := match value with Some v => v | None => default_pretrigger_delay end in
  if py_lt v zero then SetValueError stored else SetOk v.

Definition stored_after (r : SetterResult) : pyfloat :=
  match r with SetValueError s => s | SetOk s => s end.

(** The getter of [pretrigger_delay]. *)
Definition get_pretrigger_delay (stored : pyfloat) : pyfloat := stored.

End PretriggerDelay.

(* ------------------------------------------------------------------------- *)
(** ** Rolling trigger time and speed class ([Node.__call__]) *)

Module TriggerSpeed.

Inductive NodeFlags := TRIGGER_SPEED_FAST | TRIGGER_SPEED_MEDIUM | TRIGGER_SPEED_SLOW.

Section Speed.
(** The float arithmetic of the interpreter: a number type with its
    addition, multiplication, [<=] and the value of a decimal literal. *)
Variable R : Type.
Variable add mul : R -> R -> R.
Variable le : R -> R -> bool.
Variable lit : Q -> R.

(** [NodeConstants]. *)
Definition FAST_THRESHOLD : R := lit (2 # 10).
Definition MEDIUM_THRESHOLD : R := lit 1.

Record Timing := mkTiming { _rolling_tigger_time : R; _trigger_speed_flag : NodeFlags }.

(** [Node.__init__]: [TRIGGER_SPEED_FAST * 1.1], flagged MEDIUM. *)
Definition init_timing : Timing :=
  mkTiming (mul FAST_THRESHOLD (lit (11 # 10))) TRIGGER_SPEED_MEDIUM.

(** The classification at the end of [Node.__call__]. *)
Definition classify (r : R) : NodeFlags :=
  if le r FAST_THRESHOLD then TRIGGER_SPEED_FAST
  else if le r MEDIUM_THRESHOLD then TRIGGER_SPEED_MEDIUM
  else TRIGGER_SPEED_SLOW.

(** The timing bookkeeping of one run of [Node.__call__]: [Some d] when
    [func] returned after [d] seconds, [None] when it raised (the average is
    then left as it is, the class is recomputed either way).  The
    [is None] branch of the source is dead: [__init__] sets a number and
    nothing assigns [None]. *)
Definition after_call (outcome : option R) (t : Timing) : Timing :=
  let r := match outcome with
           | Some d => add (mul (lit (9 # 10)) (_rolling_tigger_time t)) (mul (lit (1 # 10)) d)
           | None => _rolling_tigger_time t
           end in
  mkTiming r (classify r).

Definition run_calls (outcomes : list (option R)) (t : Timing) : Timing :=
  fold_left (fun acc o => after_call o acc) outcomes t.

End Speed.

Arguments mkTiming {R} _ _.
Arguments _rolling_tigger_time {R} _.
Arguments _trigger_speed_flag {R} _.
Arguments init_timing {R} mul lit.
Arguments classify {R} le lit r.
Arguments after_call {R} add mul le lit outcome t.
Arguments run_calls {R} add mul le lit outcomes t.

End TriggerSpeed.

(* ------------------------------------------------------------------------- *)
(** ** Event emitter ([EventEmitterMixin] in [eventmanager.py]) *)

Module Emitter.

Import PyDict.

(** A listener of an event: a plain callback, or the [_callback] closure
    built by [once] around a callback (each closure is a distinct object,
    told apart by its first number).  Calling a callback [n] records [n]. *)
Inductive Listener :=
| LPlain : nat -> Listener
| LOnce : nat -> nat -> Listener.

Definition listener_eqb (a b : Listener) : bool :=
  match a, b with
  | LPlain n, LPlain m => Nat.eqb n m
  | LOnce w n, LOnce v m => Nat.eqb w v && Nat.eqb n m
  | _, _ => false
  end.

(** An error listener: a plain callback or the wrapper built by [once_error]. *)
Inductive ErrListener :=
| EPlain : nat -> ErrListener
| EOnce : nat -> nat -> ErrListener.

Definition err_listener_eqb (a b : ErrListener) : bool :=
  match a, b with
  | EPlain n, EPlain m => Nat.eqb n m
  | EOnce w n, EOnce v m => Nat.eqb w v && Nat.eqb n m
  | _, _ => false
  end.

(** The emitter: its own identity, [_events], [_error_events], and the
    calls the callbacks have received so far: [(callback, event field)] for
    event listeners (the field is set for wildcard listeners) and
    [(callback, error, src)] for error listeners. *)
Record EmitterState := mkEmitter {
  self_id : nat;
  _events : list (string * list Listener);
  _error_events : list ErrListener;
  calls : list (nat * option string);
  error_calls : list (nat * nat * nat)
}.

Definition with_events (s : EmitterState) (ev : list (string * list Listener)) : EmitterState :=
  mkEmitter (self_id s) ev (_error_events s) (calls s) (error_calls s).

Definition with_error_events (s : EmitterState) (ev : list ErrListener) : EmitterState :=
  mkEmitter (self_id s) (_events s) ev (calls s) (error_calls s).

Definition listeners (s : EmitterState) (e : string) : list Listener :=
  match dict_get String.eqb (_events s) e with Some l => l | None => [] end.

(** [on]. *)
Definition on (e : string) (cb : Listener) (s : EmitterState) : EmitterState :=
  let l := listeners s e in
  if py_in listener_eqb cb l then with_events s (dict_set String.eqb (_events s) e l)
  else with_events s (dict_set String.eqb (_events s) e (l ++ [cb])).

(** [off]: one callback (or all, for [None]); the key goes once empty. *)
Definition off (e : string) (cb : option Listener) (s : EmitterState) : EmitterState :=
  match dict_get String.eqb (_events s) e with
  | None => s
  | Some l =>
      let l' := match cb with
                | None => []
                | Some c => if py_in listener_eqb c l then py_remove listener_eqb c l else l
                end in
      match l' with
      | [] => with_events s (dict_del String.eqb (_events s) e)
      | _ => with_events s (dict_set String.eqb (_events s) e l')
      end
  end.

(** [once]: registers the wrapper [_callback] (closure number [w]). *)
Definition once (e : string) (w cb : nat) (s : EmitterState) : EmitterState :=
  on e (LOnce w cb) s.

Definition record_call (n : nat) (field : option string) (s : EmitterState) : EmitterState :=
  mkEmitter (self_id s) (_events s) (_error_events s) (calls s ++ [(n, field)]) (error_calls s).

(** Calling a listener of the list stored under [key]; the [once] wrapper
    first deregisters itself ([self.off(event_name, _callback)]) and then
    calls the wrapped callback. *)
Definition call_listener (key : string) (field : option string) (l : Listener)
    (s : EmitterState) : EmitterState :=
  match l with
  | LPlain n => record_call n field s
  | LOnce w n => record_call n field (off key (Some (LOnce w n)) s)
  end.

(** [for callback in self._events[key]: ...]: CPython's list iterator keeps
    an index into the live list and stops once the index reaches its
    current length.  The listeners modelled here only ever remove
    themselves, so the live list is the one stored under [key] (or empty
    once [off] has deleted the key). *)
Fixpoint dispatch (fuel : nat) (key : string) (field : option string) (i : nat)
    (s : EmitterState) (listened : bool) : EmitterState * bool :=
  match fuel with
  | O => (s, listened)
  | S fuel' =>
      match nth_error (listeners s key) i with
      | None => (s, listened)
      | Some cb => dispatch fuel' key field (S i) (call_listener key field cb s) true
      end
  end.

Inductive EmitResult :=
| EmitValueError : EmitResult
| EmitReturned : bool -> EmitterState -> EmitResult.

(** The two loops of [emit], once [msg["src"]] is the emitter. *)
Definition emit_body (e : string) (s : EmitterState) : EmitterState * bool :=
  let '(s1, l1) := dispatch (List.length (listeners s e)) e None 0 s false in
  dispatch (List.length (listeners s1 "*"%string)) "*"%string (Some e) 0 s1 l1.

(** [emit(event_name, msg)]: [msg_src] is the [src] entry of [msg], if any;
    a [src] other than the emitter raises [ValueError]. *)
Definition emit (e : string) (msg_src : option nat) (s : EmitterState) : EmitResult :=
  match msg_src with
  | Some src => if Nat.eqb src (self_id s) then
                  let '(s', b) := emit_body e s in EmitReturned b s'
                else EmitValueError
  | None => let '(s', b) := emit_body e s in EmitReturned b s'
  end.

(** [on_error]. *)
Definition on_error (cb : ErrListener) (s : EmitterState) : EmitterState :=
  if py_in err_listener_eqb cb (_error_events s) then s
  else with_error_events s (_error_events s ++ [cb]).

(** [off_error]: one callback, or all for [None]. *)
Definition off_error (cb : option ErrListener) (s : EmitterState) : EmitterState :=
  match cb with
  | None => with_error_events s []
  | Some c => if py_in err_listener_eqb c (_error_events s)
              then with_error_events s (py_remove err_listener_eqb c (_error_events s))
              else s
  end.

(** [once_error]: registers the wrapper (closure number [w]). *)
Definition once_error (w cb : nat) (s : EmitterState) : EmitterState :=
  on_error (EOnce w cb) s.

Definition record_error_call (n err : nat) (s : EmitterState) : EmitterState :=
  mkEmitter (self_id s) (_events s) (_error_events s) (calls s)
    (error_calls s ++ [(n, err, self_id s)]).

(** Calling an error listener with [(error=err, src=self)]; the
    [once_error] wrapper first runs [self.off_error(_callback)]. *)
Definition call_error_listener (err : nat) (l : ErrListener) (s : EmitterState) : EmitterState :=
  match l with
  | EPlain n => record_error_call n err s
  | EOnce w n => record_error_call n err (off_error (Some (EOnce w n)) s)
  end.

(** [for callback in self._error_events]: index iteration over the live
    list, which the wrappers shrink in place with [list.remove]. *)
Fixpoint error_dispatch (fuel : nat) (err : nat) (i : nat) (s : EmitterState) : EmitterState :=
  match fuel with
  | O => s
  | S fuel' =>
      match nth_error (_error_events s) i with
      | None => s
      | Some cb => error_dispatch fuel' err (S i) (call_error_listener err cb s)
      end
  end.

Inductive ErrorResult :=
| Reraised : nat -> EmitterState -> ErrorResult
| ErrorReturned : bool -> EmitterState -> ErrorResult.

(** [error(e)]. *)
Definition error (err : nat) (s : EmitterState) : ErrorResult :=
  if Nat.ltb 0 (List.length (_error_events s)) then
    ErrorReturned true (error_dispatch (List.length (_error_events s)) err 0 s)
  else Reraised err s.

(** [cleanup]: [off(event_name)] for every key of a snapshot of
    [_events], then [off_error()]. *)
Definition cleanup (s : EmitterState) : EmitterState :=
  off_error None (fold_left (fun acc k => off k None acc) (map fst (_events s)) s).

End Emitter.

(* ------------------------------------------------------------------------- *)
(** ** Class registry ([register_node] in [node.py]) *)

Module Registry.

Import PyDict.

(** A node class: its identity as a Python object, [__module__],
    [__name__] and [node_id]. *)
Record NodeClass := mkClass {
  cls_obj : nat;
  cls_module : string;
  cls_name : string;
  node_id : string
}.

(** [REGISTERED_NODES] is a [WeakValueDictionary]; the model holds the
    entries that still resolve (the ones [gc.collect()] keeps). *)
Definition Registry := list (string * NodeClass).

Inductive RegisterResult :=
| NodeIdAlreadyExistsError : Registry -> RegisterResult
| Registered : Registry -> RegisterResult.

Definition registry_of (r : RegisterResult) : Registry :=
  match r with NodeIdAlreadyExistsError g => g | Registered g => g end.

(** [register_node] under the module flag [ALLOW_REGISTERED_NODES_OVERRIDE]. *)
Definition register_node (ALLOW_REGISTERED_NODES_OVERRIDE : bool)
    (node_class : NodeClass) (reg : Registry) : RegisterResult :=
  let nid := node_id node_class in
  match dict_get String.eqb reg nid with
  | Some old_node =>
      if negb ALLOW_REGISTERED_NODES_OVERRIDE then
        let allow := String.eqb (cls_module old_node ++ cls_name old_node)
                                (cls_module node_class ++ cls_name node_class) in
        if negb allow then NodeIdAlreadyExistsError reg
        else Registered (dict_set String.eqb reg nid node_class)
      else Registered (dict_set String.eqb reg nid node_class)
  | None => Registered (dict_set String.eqb reg nid node_class)
  end.

Inductive LookupResult :=
| NodeKeyError : LookupResult
| Found : NodeClass -> LookupResult.

(** [get_nodeclass]. *)
Definition get_nodeclass (reg : Registry) (nid : string) : LookupResult :=
  match dict_get String.eqb reg nid with
  | None => NodeKeyError
  | Some c => Found c
  end.

End Registry.

(* ------------------------------------------------------------------------- *)
(** ** Flat shelf store ([Library] in [lib/lib.py]) *)

Module Library.

Import PyDict Registry.

Definition Path := list string.

Fixpoint path_eqb (a b : Path) : bool :=
  match a, b with
  | [], [] => true
  | x :: a', y :: b' => String.eqb x y && path_eqb a' b'
  | _, _ => false
  end.

(** [_ShelfRecord]. *)
Record ShelfRecord := mkRecord {
  rec_name : string;
  rec_description : string;
  nodes_ref : list string
}.

(** [Library._records], keyed by path tuples. *)
Definition Records := list (Path * ShelfRecord).

#[local] Set Warnings "-register-all".

(** A [Shelf] tree as handed to [add_shelf]. *)
Inductive Shelf :=
| mkShelf : string -> string -> list NodeClass -> list Shelf -> Shelf.

Definition shelf_name (s : Shelf) : string := match s with mkShelf n _ _ _ => n end.

(** [_unique_push]. *)
Definition _unique_push (lst : list string) (value : string) : list string :=
  if py_in String.eqb value lst then lst else lst ++ [value].

(** The record [_ensure_path_exists] creates for a missing [key]. *)
Definition fresh_record (key : Path) : ShelfRecord := mkRecord (last key ""%string) "" [].

(** [_ensure_path_exists] for a non-empty path: [key = path[:i]] for
    [i in range(1, len(path) + 1)], inserted when missing. *)
Definition _ensure_path_exists (path : Path) (recs : Records) : Records :=
  fold_left (fun r i => let key := firstn i path in
                        match dict_get path_eqb r key with
                        | Some _ => r
                        | None => dict_set path_eqb r key (fresh_record key)
                        end)
            (seq 1 (List.length path)) recs.

(** The in-place update of [rec] in [_add_shelf_tree]: description (latest
    wins), then the node ids pushed one by one. *)
Definition merge_record (rec : ShelfRecord) (description : string) (ids : list string) : ShelfRecord :=
  let d := if negb (String.eqb description (rec_description rec)) then description
           else rec_description rec in
  mkRecord (rec_name rec) d (fold_left _unique_push ids (nodes_ref rec)).

(** [_add_shelf_tree(src, parent)]. *)
Fixpoint _add_shelf_tree (src : Shelf) (parent : Path) (recs : Records) {struct src} : Records :=
  match src with
  | mkShelf name description nodes subshelves =>
      let path := parent ++ [name] in
      let recs1 := _ensure_path_exists path recs in
      let recs2 := match dict_get path_eqb recs1 path with
                   | Some rec => dict_set path_eqb recs1 path
                                   (merge_record rec description (map node_id nodes))
                   | None => recs1
                   end in
      (fix go (subs : list Shelf) (r : Records) : Records :=
         match subs with
         | [] => r
         | sub :: subs' => go subs' (_add_shelf_tree sub path r)
         end) subshelves recs2
  end.

(** The store after [add_shelf(shelf)] (its return value, a snapshot built
    by [_build_shelf], is not modelled). *)
Definition add_shelf (shelf : Shelf) (recs : Records) : Records :=
  _add_shelf_tree shelf [] recs.

(** [find_nodeid(nodeid, all)] against the current registry. *)
Definition find_nodeid (reg : Registry) (nodeid : string) (all : bool) (recs : Records) : list Path :=
  match dict_get String.eqb reg nodeid with
  | None => []
  | Some _ =>
      (fix go (rs : Records) : list Path :=
         match rs with
         | [] => []
         | (key, rec) :: rs' =>
             if py_in String.eqb nodeid (nodes_ref rec)
             then key :: (if all then go rs' else [])
             else go rs'
         end) recs
  end.

(** The argument of [_norm_path]: a string or a list of strings. *)
Inductive PathLike :=
| PathStr : string -> PathLike
| PathList : list string -> PathLike.

(** [_norm_path]: [None] is the [ValueError] for an empty path. *)
Definition _norm_path (path_like : PathLike) : option Path :=
  match path_like with
  | PathStr s => if String.eqb s "" then None else Some [s]
  | PathList [] => None
  | PathList l => Some l
  end.

(** Store operations that may raise [ValueError] ([None]). *)
Definition StoreResult := option Records.

(** [add_nodes(nodes, shelf)]. *)
Definition add_nodes (nodes : list NodeClass) (shelf : PathLike) (recs : Records) : StoreResult :=
  match _norm_path shelf with
  | None => None
  | Some path =>
      let recs1 := _ensure_path_exists path recs in
      match dict_get path_eqb recs1 path with
      | Some rec => Some (dict_set path_eqb recs1 path
                            (mkRecord (rec_name rec) (rec_description rec)
                               (fold_left _unique_push (map node_id nodes) (nodes_ref rec))))
      | None => Some recs1
      end
  end.

(** [k[:len(path)] == path]. *)
Definition has_prefix (path k : Path) : bool := path_eqb (firstn (List.length path) k) path.

(** [_remove_subtree(path)]. *)
Definition _remove_subtree (path : Path) (recs : Records) : StoreResult :=
  if existsb (fun kr => has_prefix path (fst kr)) recs
  then Some (filter (fun kr => negb (has_prefix path (fst kr))) recs)
  else None.

(** [remove_shelf(shelf)]: the top-level shelf named like [shelf]. *)
Definition remove_shelf (shelf : Shelf) (recs : Records) : StoreResult :=
  _remove_subtree [shelf_name shelf] recs.

(** [remove_shelf_path(path)]. *)
Definition remove_shelf_path (path : PathLike) (recs : Records) : StoreResult :=
  match _norm_path path with
  | None => None
  | Some p => _remove_subtree p recs
  end.

(** [has_node_id]. *)
Definition has_node_id (reg : Registry) (nodeid : string) (recs : Records) : bool :=
  Nat.ltb 0 (List.length (find_nodeid reg nodeid false recs)).

(** [rec.nodes_ref[:] = [nid for nid in rec.nodes_ref if nid != nodeid]]. *)
Definition strip_id (nodeid : string) (rec : ShelfRecord) : ShelfRecord :=
  mkRecord (rec_name rec) (rec_description rec)
    (filter (fun nid => negb (String.eqb nid nodeid)) (nodes_ref rec)).

(** [remove_nodeclass(node)]: over the paths of [find_nodeclass(node)]. *)
Definition remove_nodeclass (reg : Registry) (node : NodeClass) (recs : Records) : Records :=
  let nodeid := node_id node in
  fold_left (fun r path => match dict_get path_eqb r path with
                           | None => r
                           | Some rec => dict_set path_eqb r path (strip_id nodeid rec)
                           end)
            (find_nodeid reg nodeid true recs) recs.

(** [get_node_by_id]: [None] is [NodeClassNotFoundError]. *)
Definition get_node_by_id (reg : Registry) (nodeid : string) (recs : Records) : option NodeClass :=
  if negb (has_node_id reg nodeid recs) then None
  else dict_get String.eqb reg nodeid.

Definition shelf_nodes (s : Shelf) : list NodeClass := match s with mkShelf _ _ ns _ => ns end.
Definition shelf_subshelves (s : Shelf) : list Shelf := match s with mkShelf _ _ _ ss => ss end.

(** [flatten_shelf]. *)
Fixpoint flatten_shelf (shelf : Shelf) : list NodeClass * list Shelf :=
  match shelf with
  | mkShelf _ _ nodes subs =>
      (fix go (subs : list Shelf) (acc : list NodeClass * list Shelf) :=
         match subs with
         | [] => acc
         | sub :: subs' =>
             let '(subnodes, subshelves) := flatten_shelf sub in
             go subs' (fst acc ++ subnodes, snd acc ++ subshelves)
         end) subs (nodes, [shelf])
  end.

(** [flatten_shelves]. *)
Definition flatten_shelves (shelves : list Shelf) : list NodeClass * list Shelf :=
  fold_left (fun acc sh => let '(n, s) := flatten_shelf sh in (fst acc ++ n, snd acc ++ s))
            shelves ([], []).

(** [get_node_in_shelf]: [None] is [NodeClassNotFoundError]. *)
Definition get_node_in_shelf (shelf : Shelf) (nodeid : string) : option (nat * NodeClass) :=
  (fix go (i : nat) (nodes : list NodeClass) :=
     match nodes with
     | [] => None
     | node :: nodes' => if String.eqb (node_id node) nodeid then Some (i, node) else go (S i) nodes'
     end) 0%nat (shelf_nodes shelf).

(** [deep_find_node(shelf, nodeid, all)]; its recursive call passes no
    [all], so the subshelves are searched with the default [True]. *)
Fixpoint deep_find_node (shelf : Shelf) (nodeid : string) (all : bool) {struct shelf} : list Path :=
  match shelf with
  | mkShelf name _ _ subs =>
      let here := match get_node_in_shelf shelf nodeid with Some _ => [[name]] | None => [] end in
      if negb all && (Nat.ltb 0 (List.length here)) then here
      else
        (fix go (subs : list Shelf) (paths : list Path) :=
           match subs with
           | [] => paths
           | sub :: subs' =>
               let path := deep_find_node sub nodeid true in
               if Nat.ltb 0 (List.length path) then
                 let paths' := paths ++ map (fun p => name :: p) path in
                 if all then go subs' paths' else paths'
               else go subs' paths
           end) subs here
  end.

End Library.

(* ------------------------------------------------------------------------- *)
(** ** Inputs and outputs of a node ([node.py]) *)

Module NodePorts.

Import PyDict.

(** Modelled from the node's use of them: [NodeInput] / [NodeOutput] are
    not part of the sources; the node reads their [uuid] only.  An io is
    its identity as a Python object and its [uuid]. *)
Record NodeIO := mkIO { io_obj : nat; io_uuid : string }.

(** [self._inputs] with its cache [self._inputs_dict] (likewise
    [_outputs] / [_outputs_dict]). *)
Record IOList := mkIOs { _ios : list NodeIO; _ios_dict : option (list (string * NodeIO)) }.

(** [add_input] / [add_output]: [None] is the [ValueError] for a taken
    uuid; otherwise the io is appended and the cache reset. *)
Definition add_io (io : NodeIO) (p : IOList) : option IOList :=
  if py_in String.eqb (io_uuid io) (map io_uuid (_ios p)) then None
  else Some (mkIOs (_ios p ++ [io]) None).

Definition add_input := add_io.
Definition add_output := add_io.

(** [get_input] / [get_output]: [None] is [IONotFoundError]. *)
Fixpoint find_io (uuid : string) (l : list NodeIO) : option NodeIO :=
  match l with
  | [] => None
  | io :: l' => if String.eqb (io_uuid io) uuid then Some io else find_io uuid l'
  end.

Definition get_io (p : IOList) (uuid : string) : option NodeIO := find_io uuid (_ios p).

Definition get_input := get_io.
Definition get_output := get_io.

(** [get_input_or_output]. *)
Definition get_input_or_output (ins outs : IOList) (uuid : string) : option NodeIO :=
  match get_input ins uuid with
  | Some io => Some io
  | None => get_output outs uuid
  end.

(** The [inputs] / [outputs] property: [{ip.uuid: ip for ip in self._inputs}],
    built once and cached. *)
Definition ios_dict (p : IOList) : list (string * NodeIO) * IOList :=
  match _ios_dict p with
  | Some d => (d, p)
  | None =>
      let d := fold_left (fun d io => dict_set String.eqb d (io_uuid io) io) (_ios p) [] in
      (d, mkIOs (_ios p) (Some d))
  end.

End NodePorts.

(* ========================================================================= *)
(** * Properties *)

Module NodeTriggerFacts.

Import NodeTrigger.

Lemma forallb_true_iff (l : list bool) :
  forallb (fun b => b) l = true <-> Forall (fun b => b = true) l.
Proof.
  induction l as [|b l IH]; simpl.
  - split; auto.
  - rewrite andb_true_iff, IH. split.
    + intros [Hb Hl]. constructor; auto.
    + intros H. inversion H; subst. auto.
Qed.

(** The node-side notion of "no active, unfinished Trigger Stack". *)
Definition no_active_stack (n : NodeState) : Prop :=
  match _triggerstack n with None => True | Some ts => stack_done ts = true end.

Lemma in_trigger_fst (n : NodeState) :
  fst (in_trigger n) = negb (match _triggerstack n with
                             | Some ts => stack_done ts
                             | None => true
                             end) || _trigger_open n.
Proof.
  unfold in_trigger. destruct (_triggerstack n) as [ts|] eqn:E; simpl.
  - destruct (stack_done ts); simpl; [reflexivity|]. rewrite E. reflexivity.
  - rewrite E. reflexivity.
Qed.

Lemma ready_to_trigger_fst (n : NodeState) :
  fst (ready_to_trigger n) =
  loop_running n && forallb (fun b => b) (inputs_ready_flags n)
  && match _triggerstack n with Some ts => stack_done ts | None => true end
  && negb (_trigger_open n).
Proof.
  unfold ready_to_trigger, ready, inputs_ready.
  destruct (loop_running n); cbn -[in_trigger]; [|reflexivity].
  destruct (forallb (fun b => b) (inputs_ready_flags n)); cbn -[in_trigger]; [|reflexivity].
  rewrite (surjective_pairing (in_trigger n)). cbn -[in_trigger]. rewrite in_trigger_fst.
  destruct (match _triggerstack n with Some ts => stack_done ts | None => true end);
    destruct (_trigger_open n); reflexivity.
Qed.

(** C1: [ready_to_trigger()] is true exactly when a loop is running, every
    declared input reports ready, no unfinished Trigger Stack is attached
    and the trigger-open flag is unset. *)
Theorem ready_to_trigger_iff (n : NodeState) :
  fst (ready_to_trigger n) = true <->
  loop_running n = true
  /\ Forall (fun b => b = true) (inputs_ready_flags n)
  /\ no_active_stack n
  /\ _trigger_open n = false.
Proof.
  rewrite ready_to_trigger_fst, <- forallb_true_iff. unfold no_active_stack.
  destruct (_triggerstack n) as [ts|].
  - rewrite !andb_true_iff, negb_true_iff. tauto.
  - rewrite !andb_true_iff, negb_true_iff. tauto.
Qed.

(** The claim's notion of being in trigger: an attached, unfinished
    Trigger Stack or the trigger-open flag. *)
Definition in_trigger_cond (n : NodeState) : Prop :=
  (exists ts, _triggerstack n = Some ts /\ stack_done ts = false) \/ _trigger_open n = true.

(** The stack left behind by [in_trigger]: a finished one is dropped. *)
Definition stack_after_check (n : NodeState) : option TriggerStack :=
  match _triggerstack n with
  | Some t => if stack_done t then None else Some t
  | None => None
  end.

(** C2, as stated: [trigger] on a node in trigger raises and leaves
    [_triggerstack], [_trigger_open] and [_requests_trigger] as they were. *)
Definition trigger_error_keeps_state : Prop :=
  forall ts n, in_trigger_cond n ->
  exists n', trigger ts n = Raised InTriggerError n'
             /\ _triggerstack n' = _triggerstack n
             /\ _trigger_open n' = _trigger_open n
             /\ _requests_trigger n' = _requests_trigger n.

(** A node whose trigger window is open while its last stack has finished. *)
Definition open_node_done_stack : NodeState :=
  mkNode true [] (Some (mkStack [true])) true false.

(** C2 (counterexample): the rejected call still clears a finished stack. *)
Lemma trigger_error_drops_done_stack : ~ trigger_error_keeps_state.
Proof.
  intros H.
  destruct (H None open_node_done_stack (or_intror eq_refl)) as [n' [Ht [Hs _]]].
  vm_compute in Ht. injection Ht as <-. discriminate Hs.
Qed.

(** C2 (amended): on a node in trigger, [trigger] always raises
    [InTriggerError] and schedules nothing; [_trigger_open],
    [_requests_trigger] and the rest are unchanged, and [_triggerstack] is
    unchanged unless it held a finished stack, which is dropped. *)
Theorem trigger_in_trigger_raises (ts : option TriggerStack) (n : NodeState) :
  in_trigger_cond n ->
  exists n', trigger ts n = Raised InTriggerError n'
             /\ _triggerstack n' = stack_after_check n
             /\ _trigger_open n' = _trigger_open n
             /\ _requests_trigger n' = _requests_trigger n
             /\ loop_running n' = loop_running n
             /\ inputs_ready_flags n' = inputs_ready_flags n.
Proof.
  intros Hin. unfold trigger, in_trigger, stack_after_check.
  destruct n as [lr ir st op rq].
  destruct Hin as [[t [Ht Hd]] | Hop]; simpl in *.
  - subst st. rewrite Hd. simpl. eexists; repeat split; reflexivity.
  - subst op. destruct st as [t|]; [destruct (stack_done t)|]; simpl;
      rewrite ?orb_true_r; eexists; repeat split; reflexivity.
Qed.

Lemma trigger_in_trigger_raises_witness :
  in_trigger_cond open_node_done_stack /\
  exists n', trigger None open_node_done_stack = Raised InTriggerError n'
             /\ _triggerstack n' = None
             /\ _trigger_open n' = true.
Proof.
  assert (Hin : in_trigger_cond open_node_done_stack) by (right; reflexivity).
  split; [exact Hin|].
  destruct (trigger_in_trigger_raises None open_node_done_stack Hin)
    as [n' [Ht [Hs [Ho _]]]].
  exists n'. split; [exact Ht|]. split; [exact Hs | exact Ho].
Defined.

End NodeTriggerFacts.

Module PretriggerDelayFacts.

Import PretriggerDelay.

(** The negative case works as described on both paths: the constructor
    falls back to the default, the setter raises and keeps the stored value. *)
Lemma pretrigger_negative_paths (default stored : pyfloat) (q : Q) :
  Qlt q 0 ->
  init_pretrigger_delay default (Some (Num q)) = default
  /\ set_pretrigger_delay default stored (Some (Num q)) = SetValueError stored.
Proof.
  intros Hq. unfold init_pretrigger_delay, set_pretrigger_delay, py_ge, py_lt, zero.
  assert (Hb : Qle_bool 0 q = false).
  { destruct (Qle_bool 0 q) eqn:E; [|reflexivity].
    apply Qle_bool_iff in E. exfalso. apply (Qlt_not_le q 0 Hq E). }
  rewrite Hb. split; reflexivity.
Qed.

(** C10 (failing input [node.pretrigger_delay = float("nan")]): the
    constructor's [>= 0] test rejects NaN and keeps the default, but the
    setter only rejects [value < 0], which is [False] for NaN, so NaN is
    stored although [NaN >= 0] is [False]. *)
Theorem pretrigger_setter_stores_nan (default stored : pyfloat) :
  init_pretrigger_delay default (Some NaN) = default
  /\ set_pretrigger_delay default stored (Some NaN) = SetOk NaN
  /\ py_ge (stored_after (set_pretrigger_delay default stored (Some NaN))) zero = false.
Proof. repeat split; reflexivity. Qed.

End PretriggerDelayFacts.

Module TriggerSpeedFacts.

Import TriggerSpeed.

Lemma run_calls_app {R} add mul le lit (os1 os2 : list (option R)) (t : Timing R) :
  run_calls add mul le lit (os1 ++ os2) t
  = run_calls add mul le lit os2 (run_calls add mul le lit os1 t).
Proof. unfold run_calls. apply fold_left_app. Qed.

Lemma classify_spec {R} (le : R -> R -> bool) lit (r : R) :
  (classify le lit r = TRIGGER_SPEED_FAST <-> le r (lit (2 # 10)) = true)
  /\ (classify le lit r = TRIGGER_SPEED_MEDIUM <->
        le r (lit (2 # 10)) = false /\ le r (lit 1) = true)
  /\ (classify le lit r = TRIGGER_SPEED_SLOW <->
        le r (lit (2 # 10)) = false /\ le r (lit 1) = false).
Proof.
  unfold classify, FAST_THRESHOLD, MEDIUM_THRESHOLD.
  destruct (le r (lit (2 # 10))), (le r (lit 1));
    intuition (try discriminate).
Qed.

(** C3: after every completed execution of duration [d], whatever the
    node's earlier history [os] of executions (successful ones with their
    durations, failed ones leaving the average alone), the average is
    [0.9 * old + 0.1 * d] and the class is FAST iff it is [<= 0.2], MEDIUM
    iff it is [> 0.2] and [<= 1], SLOW otherwise.  Stated over any number
    type with its own [+], [*], [<=] and literals, so it covers the
    interpreter's floats. *)
Theorem rolling_average_step {R} (add mul : R -> R -> R) (le : R -> R -> bool)
    (lit : Q -> R) (os : list (option R)) (d : R) (t : Timing R) :
  let before := run_calls add mul le lit os t in
  let after := run_calls add mul le lit (os ++ [Some d]) t in
  let r := _rolling_tigger_time after in
  r = add (mul (lit (9 # 10)) (_rolling_tigger_time before)) (mul (lit (1 # 10)) d)
  /\ (_trigger_speed_flag after = TRIGGER_SPEED_FAST <-> le r (lit (2 # 10)) = true)
  /\ (_trigger_speed_flag after = TRIGGER_SPEED_MEDIUM <->
        le r (lit (2 # 10)) = false /\ le r (lit 1) = true)
  /\ (_trigger_speed_flag after = TRIGGER_SPEED_SLOW <->
        le r (lit (2 # 10)) = false /\ le r (lit 1) = false).
Proof.
  intros before after r. subst r after before.
  rewrite run_calls_app. simpl. split; [reflexivity|]. apply classify_spec.
Qed.

(** On exact rationals: from the initial [0.22] (MEDIUM), one run of 10ms
    brings the average to [0.199] (FAST), a run of 3s then to [0.4791]
    (MEDIUM). *)
Example speed_trace_q :
  map (fun o => _trigger_speed_flag
                  (run_calls Qplus Qmult Qle_bool (fun q => q) o
                     (init_timing Qmult (fun q => q))))
      [[]; [Some (1 # 100)]; [Some (1 # 100); Some 3]]
  = [TRIGGER_SPEED_MEDIUM; TRIGGER_SPEED_FAST; TRIGGER_SPEED_MEDIUM].
Proof. vm_compute. reflexivity. Qed.

End TriggerSpeedFacts.

Module EmitterFacts.

Import PyDict Emitter.
Open Scope nat_scope.
Open Scope string_scope.
Open Scope list_scope.

(** An emitter with no listeners yet. *)
Definition fresh_emitter : EmitterState := mkEmitter 0 [] [] [] [].

(** [once("test", cb1)] then [on("test", cb2)], as in the repository's test
    [test_event_manager_modification_during_emit]. *)
Definition once_then_plain : EmitterState :=
  on "test" (LPlain 2) (once "test" 100 1 fresh_emitter).

(** C4 (failing input: [once("test", cb1); on("test", cb2); emit("test")]):
    the wrapper removes itself from the list being iterated, the iterator's
    index then points past the shifted [cb2], and [cb2], still registered,
    is never called. *)
Theorem once_skips_next_listener :
  listeners once_then_plain "test" = [LOnce 100 1; LPlain 2]
  /\ emit "test" None once_then_plain
     = EmitReturned true (mkEmitter 0 [("test", [LPlain 2])] [] [(1, None)] []).
Proof. split; vm_compute; reflexivity. Qed.

(** [on_error(cb2)] after [once_error(cb1)]. *)
Definition once_error_then_plain : EmitterState :=
  on_error (EPlain 2) (once_error 100 1 fresh_emitter).

(** C9 (failing input: [once_error(cb1); on_error(cb2); error(e)]): [error]
    returns [True] but only [cb1] receives [(error=e, src=emitter)]; the
    wrapper's [off_error] shifts [cb2] under the loop's index. *)
Theorem error_skips_next_listener :
  _error_events once_error_then_plain = [EOnce 100 1; EPlain 2]
  /\ error 7 once_error_then_plain
     = ErrorReturned true (mkEmitter 0 [] [EPlain 2] [] [(1, 7, 0)]).
Proof. split; vm_compute; reflexivity. Qed.

(** The callback a listener ends up calling. *)
Definition lid (l : Listener) : nat := match l with LPlain n => n | LOnce _ n => n end.

Definition all_plain (l : list Listener) : Prop := Forall (fun x => exists n, x = LPlain n) l.

Definition with_calls (s : EmitterState) (cs : list (nat * option string)) : EmitterState :=
  mkEmitter (self_id s) (_events s) (_error_events s) (calls s ++ cs) (error_calls s).

Lemma with_calls_app (s : EmitterState) (c1 c2 : list (nat * option string)) :
  with_calls (with_calls s c1) c2 = with_calls s (c1 ++ c2).
Proof. unfold with_calls. simpl. rewrite app_assoc. reflexivity. Qed.

Lemma listeners_with_calls (s : EmitterState) cs key :
  listeners (with_calls s cs) key = listeners s key.
Proof. reflexivity. Qed.

Lemma skipn_at_nth {A} (l : list A) (i : nat) (x : A) :
  nth_error l i = Some x -> skipn i l = x :: skipn (S i) l.
Proof.
  revert i. induction l as [|y l IH]; intros [|i] H; simpl in *; try discriminate.
  - injection H as ->. reflexivity.
  - apply IH. exact H.
Qed.

(** Dispatching over a list of plain listeners calls each remaining one,
    from index [i] on, in order, and changes nothing else. *)
Lemma dispatch_plain (key : string) (field : option string) :
  forall fuel i s b,
  all_plain (listeners s key) ->
  List.length (listeners s key) <= i + fuel ->
  dispatch fuel key field i s b
  = (with_calls s (map (fun l => (lid l, field)) (skipn i (listeners s key))),
     b || Nat.ltb i (List.length (listeners s key))).
Proof.
  induction fuel as [|fuel IH]; intros i s b Hp Hlen; simpl.
  - rewrite Nat.add_0_r in Hlen. rewrite skipn_all2 by exact Hlen.
    assert (Hlt : Nat.ltb i (List.length (listeners s key)) = false)
      by (apply Nat.ltb_ge; exact Hlen).
    rewrite Hlt, orb_false_r. unfold with_calls. simpl. rewrite app_nil_r.
    destruct s; reflexivity.
  - destruct (nth_error (listeners s key) i) as [cb|] eqn:Hn.
    + assert (Hi : i < List.length (listeners s key))
        by (apply nth_error_Some; congruence).
      destruct (proj1 (Forall_forall _ _) Hp cb (nth_error_In _ _ Hn)) as [m ->].
      simpl. change (record_call m field s) with (with_calls s [(m, field)]).
      rewrite IH; rewrite ?listeners_with_calls; [| exact Hp | lia].
      rewrite with_calls_app.
      rewrite (skipn_at_nth _ _ _ Hn). simpl.
      assert (Hlt : Nat.ltb i (List.length (listeners s key)) = true)
        by (apply Nat.ltb_lt; exact Hi).
      rewrite Hlt, orb_true_r. reflexivity.
    + apply nth_error_None in Hn. rewrite skipn_all2 by exact Hn.
      assert (Hlt : Nat.ltb i (List.length (listeners s key)) = false)
        by (apply Nat.ltb_ge; exact Hn).
      rewrite Hlt, orb_false_r. unfold with_calls. simpl. rewrite app_nil_r.
      destruct s; reflexivity.
Qed.

Lemma emit_body_plain (e : string) (s : EmitterState) :
  all_plain (listeners s e) -> all_plain (listeners s "*") ->
  emit_body e s
  = (with_calls s (map (fun l => (lid l, None)) (listeners s e)
                   ++ map (fun l => (lid l, Some e)) (listeners s "*")),
     Nat.ltb 0 (List.length (listeners s e)) || Nat.ltb 0 (List.length (listeners s "*"))).
Proof.
  intros He Hs. unfold emit_body.
  rewrite dispatch_plain by (exact He || lia). simpl skipn.
  rewrite listeners_with_calls.
  rewrite dispatch_plain by (rewrite ?listeners_with_calls; (exact Hs || lia)).
  rewrite listeners_with_calls, with_calls_app. reflexivity.
Qed.

(** C5, as stated: every call of [emit] runs the listeners of the event and
    then the wildcard listeners. *)
Definition emit_runs_all_listeners : Prop :=
  forall e msg_src s, exists b s',
    emit e msg_src s = EmitReturned b s'
    /\ calls s' = calls s ++ map (fun l => (lid l, None)) (listeners s e)
                          ++ map (fun l => (lid l, Some e)) (listeners s "*").

Definition one_listener : EmitterState := on "test" (LPlain 2) fresh_emitter.

(** C5 (counterexample): a message whose [src] is another object makes
    [emit] raise [ValueError]; the registered listener does not run. *)
Lemma emit_foreign_src_raises : ~ emit_runs_all_listeners.
Proof.
  intros H. destruct (H "test" (Some 5) one_listener) as [b [s' [He _]]].
  vm_compute in He. discriminate He.
Qed.

(** C5 (amended): for listeners that leave the listener lists alone during
    dispatch, and a message whose [src] is absent or the emitter, [emit]
    runs the event's listeners in insertion order, then the wildcard
    listeners in insertion order with the event name as extra field, and
    returns whether any ran; a [src] naming another object raises
    [ValueError] before any listener runs. *)
Theorem emit_plain_listeners (e : string) (msg_src : option nat) (s : EmitterState) :
  all_plain (listeners s e) -> all_plain (listeners s "*") ->
  (match msg_src with Some src => src <> self_id s | None => False end ->
   emit e msg_src s = EmitValueError)
  /\ (match msg_src with Some src => src = self_id s | None => True end ->
      exists b s', emit e msg_src s = EmitReturned b s'
        /\ _events s' = _events s
        /\ calls s' = calls s ++ map (fun l => (lid l, None)) (listeners s e)
                              ++ map (fun l => (lid l, Some e)) (listeners s "*")
        /\ (b = true <-> listeners s e ++ listeners s "*" <> [])).
Proof.
  intros He Hs.
  assert (Hbody : exists b s', emit_body e s = (s', b)
            /\ _events s' = _events s
            /\ calls s' = calls s ++ map (fun l => (lid l, None)) (listeners s e)
                                  ++ map (fun l => (lid l, Some e)) (listeners s "*")
            /\ (b = true <-> listeners s e ++ listeners s "*" <> [])).
  { rewrite emit_body_plain by assumption.
    eexists; eexists; split; [reflexivity|]. split; [reflexivity|]. split; [reflexivity|].
    destruct (listeners s e), (listeners s "*"); simpl;
      split; intros; try discriminate; try reflexivity; congruence. }
  destruct Hbody as [b [s' [Hb Hrest]]].
  unfold emit. destruct msg_src as [src|]; split; intros Hsrc.
  - apply Nat.eqb_neq in Hsrc. rewrite Hsrc. reflexivity.
  - subst src. rewrite Nat.eqb_refl, Hb. exists b, s'. split; [reflexivity | exact Hrest].
  - contradiction.
  - rewrite Hb. exists b, s'. split; [reflexivity | exact Hrest].
Qed.

(** Two plain listeners on ["test"] and one on the wildcard. *)
Definition plain_emitter : EmitterState :=
  on "*" (LPlain 3) (on "test" (LPlain 2) (on "test" (LPlain 1) fresh_emitter)).

Lemma emit_plain_listeners_witness :
  all_plain (listeners plain_emitter "test") /\ all_plain (listeners plain_emitter "*")
  /\ exists b s', emit "test" None plain_emitter = EmitReturned b s'
                  /\ calls s' = [(1, None); (2, None); (3, Some "test")].
Proof.
  assert (H1 : all_plain (listeners plain_emitter "test")).
  { vm_compute. repeat constructor; eexists; reflexivity. }
  assert (H2 : all_plain (listeners plain_emitter "*")).
  { vm_compute. repeat constructor; eexists; reflexivity. }
  split; [exact H1|]. split; [exact H2|].
  destruct (proj2 (emit_plain_listeners "test" None plain_emitter H1 H2) I)
    as [b [s' [He [_ [Hc _]]]]].
  exists b, s'. split; [exact He|]. rewrite Hc. vm_compute. reflexivity.
Defined.

End EmitterFacts.

Module PyDictFacts.

Import PyDict.

Section DictFacts.
Variables K V : Type.
Variable eqb : K -> K -> bool.
Hypothesis eqb_iff : forall a b, eqb a b = true <-> a = b.

Lemma eqb_refl_gen (a : K) : eqb a a = true.
Proof. apply eqb_iff. reflexivity. Qed.

Lemma dict_get_set (d : list (K * V)) (k k' : K) (v : V) :
  dict_get eqb (dict_set eqb d k v) k' = if eqb k' k then Some v else dict_get eqb d k'.
Proof.
  induction d as [|[k0 v0] d IH]; simpl.
  - destruct (eqb k' k); reflexivity.
  - destruct (eqb k k0) eqn:E; simpl.
    + apply eqb_iff in E. subst k0. destruct (eqb k' k); reflexivity.
    + rewrite IH. destruct (eqb k' k0) eqn:E'; [|reflexivity].
      apply eqb_iff in E'. subst k0.
      destruct (eqb k' k) eqn:E''; [|reflexivity].
      apply eqb_iff in E''. subst k. rewrite eqb_refl_gen in E. discriminate.
Qed.

End DictFacts.

Arguments dict_get_set {K V} eqb eqb_iff d k k' v.

End PyDictFacts.

Module RegistryFacts.

Import PyDict Registry.
Open Scope string_scope.

Lemma registry_get_set (reg : Registry) (k k' : string) (v : NodeClass) :
  dict_get String.eqb (dict_set String.eqb reg k v) k'
  = if String.eqb k' k then Some v else dict_get String.eqb reg k'.
Proof. apply PyDictFacts.dict_get_set. apply String.eqb_eq. Qed.

(** C6, as stated: registering under a taken id either fails leaving the
    registry as it was, or, for the same module and class name, is a
    no-op. *)
Definition register_conflict_or_noop : Prop :=
  forall c reg old, dict_get String.eqb reg (node_id c) = Some old ->
  (cls_module old ++ cls_name old <> cls_module c ++ cls_name c ->
     register_node false c reg = NodeIdAlreadyExistsError reg)
  /\ (cls_module old = cls_module c -> cls_name old = cls_name c ->
     register_node false c reg = Registered reg).

Definition class_v1 : NodeClass := mkClass 1 "mypkg.nodes" "AddNode" "add".
Definition class_v2 : NodeClass := mkClass 2 "mypkg.nodes" "AddNode" "add".

(** C6 (counterexample): a second class object with the same module and
    name (say, after a module reload) replaces the registered one. *)
Lemma register_same_name_replaces : ~ register_conflict_or_noop.
Proof.
  intros H.
  destruct (H class_v2 [("add", class_v1)] class_v1 eq_refl) as [_ Hsame].
  specialize (Hsame eq_refl eq_refl). vm_compute in Hsame. discriminate Hsame.
Qed.

(** C6 (amended): with [ALLOW_REGISTERED_NODES_OVERRIDE] unset and the id
    already registered, a class whose module-plus-name string differs
    raises [NodeIdAlreadyExistsError] and leaves the registry unchanged;
    one with the same module and name is accepted and now stands under the
    id, every other id keeping its entry (a no-op when it is the registered
    class itself). *)
Theorem register_node_taken_id (c old : NodeClass) (reg : Registry) :
  dict_get String.eqb reg (node_id c) = Some old ->
  (cls_module old ++ cls_name old <> cls_module c ++ cls_name c ->
     register_node false c reg = NodeIdAlreadyExistsError reg)
  /\ (cls_module old = cls_module c -> cls_name old = cls_name c ->
      exists reg', register_node false c reg = Registered reg'
        /\ dict_get String.eqb reg' (node_id c) = Some c
        /\ (forall k, k <> node_id c -> dict_get String.eqb reg' k = dict_get String.eqb reg k)
        /\ (c = old -> forall k, dict_get String.eqb reg' k = dict_get String.eqb reg k)).
Proof.
  intros Hold. unfold register_node. rewrite Hold. simpl. split.
  - intros Hne. apply String.eqb_neq in Hne. rewrite Hne. reflexivity.
  - intros Hm Hn. rewrite Hm, Hn, String.eqb_refl. simpl.
    eexists. split; [reflexivity|]. split; [|split].
    + rewrite registry_get_set, String.eqb_refl. reflexivity.
    + intros k Hk. rewrite registry_get_set. apply String.eqb_neq in Hk. rewrite Hk. reflexivity.
    + intros <- k. rewrite registry_get_set.
      destruct (String.eqb k (node_id c)) eqn:E; [|reflexivity].
      apply String.eqb_eq in E. subst k. symmetry. exact Hold.
Qed.

Lemma register_node_taken_id_witness :
  dict_get String.eqb [("add", class_v1)] (node_id class_v2) = Some class_v1
  /\ exists reg', register_node false class_v2 [("add", class_v1)] = Registered reg'
                  /\ dict_get String.eqb reg' "add" = Some class_v2.
Proof.
  assert (H : dict_get String.eqb [("add", class_v1)] (node_id class_v2) = Some class_v1)
    by reflexivity.
  split; [exact H|].
  destruct (proj2 (register_node_taken_id class_v2 class_v1 _ H) eq_refl eq_refl)
    as [reg' [Hr [Hg _]]].
  exists reg'. split; [exact Hr | exact Hg].
Defined.

End RegistryFacts.

Module LibraryFacts.

Import PyDict Registry Library.
Open Scope string_scope.
Open Scope list_scope.

(** The hits [find_nodeid(nodeid)] reports once the id resolves: every
    path whose record lists the id, in the store's order. *)
Definition paths_listing (nid : string) (recs : Records) : list Path :=
  map fst (filter (fun kr => py_in String.eqb nid (nodes_ref (snd kr))) recs).

(** C8: while the id does not resolve, [find_nodeid] reports nothing, for
    the very same records; once it resolves again, it reports every path
    whose record lists the id. *)
Theorem find_nodeid_follows_registry (reg reg' : Registry) (recs : Records)
    (nid : string) (c : NodeClass) :
  dict_get String.eqb reg nid = None ->
  dict_get String.eqb reg' nid = Some c ->
  find_nodeid reg nid true recs = []
  /\ find_nodeid reg' nid true recs = paths_listing nid recs.
Proof.
  intros Hnone Hsome. unfold find_nodeid. rewrite Hnone, Hsome. split; [reflexivity|].
  unfold paths_listing. induction recs as [|[key rec] recs IH]; simpl; [reflexivity|].
  rewrite IH. destruct (py_in String.eqb nid (nodes_ref rec)); reflexivity.
Qed.

Definition add_class : NodeClass := mkClass 1 "mypkg.nodes" "AddNode" "add".

Definition math_records : Records :=
  [(["Math"], mkRecord "Math" "" ["add"]);
   (["Math"; "Basic"], mkRecord "Basic" "" ["sub"; "add"])].

Lemma find_nodeid_follows_registry_witness :
  dict_get String.eqb (@nil (string * NodeClass)) "add" = None
  /\ dict_get String.eqb [("add", add_class)] "add" = Some add_class
  /\ find_nodeid [] "add" true math_records = []
  /\ find_nodeid [("add", add_class)] "add" true math_records = [["Math"]; ["Math"; "Basic"]].
Proof.
  assert (H1 : dict_get String.eqb (@nil (string * NodeClass)) "add" = None) by reflexivity.
  assert (H2 : dict_get String.eqb [("add", add_class)] "add" = Some add_class) by reflexivity.
  destruct (find_nodeid_follows_registry [] [("add", add_class)] math_records "add" add_class H1 H2)
    as [Ha Hb].
  split; [exact H1|]. split; [exact H2|]. split; [exact Ha|].
  rewrite Hb. reflexivity.
Defined.

(** Merging a shelf tree, seen as the sequence of writes it performs: one
    per shelf, in the order [_add_shelf_tree] visits them. *)
Definition Write := (Path * string * list string)%type.

Fixpoint shelf_writes (src : Shelf) (parent : Path) : list Write :=
  match src with
  | mkShelf name description nodes subshelves =>
      (parent ++ [name], description, map node_id nodes)
      :: (fix go (subs : list Shelf) : list Write :=
            match subs with
            | [] => []
            | sub :: subs' => shelf_writes sub (parent ++ [name]) ++ go subs'
            end) subshelves
  end.

Definition apply_write (w : Write) (recs : Records) : Records :=
  let '(path, description, ids) := w in
  let recs1 := _ensure_path_exists path recs in
  match dict_get path_eqb recs1 path with
  | Some rec => dict_set path_eqb recs1 path (merge_record rec description ids)
  | None => recs1
  end.

Definition apply_writes (ws : list Write) (recs : Records) : Records :=
  fold_left (fun r w => apply_write w r) ws recs.

(** Induction over shelf trees, through the list of subshelves. *)
Fixpoint Shelf_ind_nested (P : Shelf -> Prop)
    (H : forall n d ns subs, Forall P subs -> P (mkShelf n d ns subs)) (s : Shelf) : P s :=
  match s with
  | mkShelf n d ns subs =>
      H n d ns subs
        ((fix G (l : list Shelf) : Forall P l :=
            match l with
            | [] => Forall_nil P
            | x :: l' => Forall_cons x (Shelf_ind_nested P H x) (G l')
            end) subs)
  end.

Lemma path_eqb_iff (a b : Path) : path_eqb a b = true <-> a = b.
Proof.
  revert b. induction a as [|x a IH]; intros [|y b]; simpl;
    try (split; intros; congruence).
  rewrite andb_true_iff, String.eqb_eq, IH. split; [intros [-> ->]; reflexivity|].
  intros H; injection H; auto.
Qed.

Lemma add_shelf_tree_writes (src : Shelf) :
  forall parent recs, _add_shelf_tree src parent recs = apply_writes (shelf_writes src parent) recs.
Proof.
  induction src as [name d nodes subs HF] using Shelf_ind_nested.
  intros parent recs. simpl. unfold apply_writes at 1. simpl.
  match goal with
  | |- _ subs ?A = fold_left _ _ ?B => change B with A; generalize A
  end.
  induction HF as [|sub subs Hsub HF IH]; intros r; simpl; [reflexivity|].
  rewrite Hsub. unfold apply_writes. rewrite fold_left_app. apply IH.
Qed.

(** What a path's entry becomes when [_ensure_path_exists] reaches it. *)
Definition ensure_rec (p : Path) (o : option ShelfRecord) : ShelfRecord :=
  match o with Some r => r | None => fresh_record p end.

(** The keys [path[:i]], [1 <= i <= len(path)], that [_ensure_path_exists]
    walks. *)
Definition prefixes (q : Path) : list Path :=
  map (fun i => firstn i q) (seq 1 (List.length q)).

Lemma get_set_path (recs : Records) (k k' : Path) (v : ShelfRecord) :
  dict_get path_eqb (dict_set path_eqb recs k v) k'
  = if path_eqb k' k then Some v else dict_get path_eqb recs k'.
Proof. apply PyDictFacts.dict_get_set. exact path_eqb_iff. Qed.

Lemma get_ensure_indices (q : Path) (idx : list nat) :
  forall recs p,
  dict_get path_eqb
    (fold_left (fun r i => let key := firstn i q in
                           match dict_get path_eqb r key with
                           | Some _ => r
                           | None => dict_set path_eqb r key (fresh_record key)
                           end) idx recs) p
  = if existsb (path_eqb p) (map (fun i => firstn i q) idx)
    then Some (ensure_rec p (dict_get path_eqb recs p)) else dict_get path_eqb recs p.
Proof.
  induction idx as [|i idx IH]; intros recs p; simpl; [reflexivity|].
  rewrite IH.
  assert (Hstep : dict_get path_eqb
                    (match dict_get path_eqb recs (firstn i q) with
                     | Some _ => recs
                     | None => dict_set path_eqb recs (firstn i q) (fresh_record (firstn i q))
                     end) p
                  = if path_eqb p (firstn i q)
                    then Some (ensure_rec p (dict_get path_eqb recs p))
                    else dict_get path_eqb recs p).
  { destruct (dict_get path_eqb recs (firstn i q)) as [x|] eqn:Ek.
    - destruct (path_eqb p (firstn i q)) eqn:E; [|reflexivity].
      apply path_eqb_iff in E. subst p. rewrite Ek. reflexivity.
    - rewrite get_set_path. destruct (path_eqb p (firstn i q)) eqn:E; [|reflexivity].
      apply path_eqb_iff in E. subst p. rewrite Ek. reflexivity. }
  rewrite Hstep.
  destruct (path_eqb p (firstn i q)); simpl;
    destruct (existsb (path_eqb p) (map (fun i0 => firstn i0 q) idx)); reflexivity.
Qed.

Lemma get_ensure (q : Path) (recs : Records) (p : Path) :
  dict_get path_eqb (_ensure_path_exists q recs) p
  = if existsb (path_eqb p) (prefixes q)
    then Some (ensure_rec p (dict_get path_eqb recs p)) else dict_get path_eqb recs p.
Proof. apply get_ensure_indices. Qed.

Lemma self_prefix (q : Path) : q <> [] -> existsb (path_eqb q) (prefixes q) = true.
Proof.
  intros Hq. apply existsb_exists. exists q. split.
  - unfold prefixes. apply in_map_iff. exists (List.length q). split.
    + apply firstn_all.
    + apply in_seq. destruct q; [contradiction|]. simpl. lia.
  - apply path_eqb_iff. reflexivity.
Qed.

(** The effect of one write on the entry of a single path. *)
Definition path_step (p : Path) (o : option ShelfRecord) (w : Write) : option ShelfRecord :=
  let '(q, description, ids) := w in
  if existsb (path_eqb p) (prefixes q) then
    Some (if path_eqb p q then merge_record (ensure_rec p o) description ids
          else ensure_rec p o)
  else o.

Lemma get_apply_write (w : Write) (recs : Records) (p : Path) :
  fst (fst w) <> [] ->
  dict_get path_eqb (apply_write w recs) p = path_step p (dict_get path_eqb recs p) w.
Proof.
  destruct w as [[q d] ids]. simpl. intros Hq.
  rewrite (get_ensure q recs q), (self_prefix q Hq), get_set_path, get_ensure.
  destruct (path_eqb p q) eqn:E.
  - apply path_eqb_iff in E. subst p. rewrite (self_prefix q Hq). reflexivity.
  - reflexivity.
Qed.

Lemma get_apply_writes (ws : list Write) :
  Forall (fun w => fst (fst w) <> []) ws ->
  forall recs p,
  dict_get path_eqb (apply_writes ws recs) p = fold_left (path_step p) ws (dict_get path_eqb recs p).
Proof.
  induction 1 as [|w ws Hw Hws IH]; intros recs p; simpl; [reflexivity|].
  unfold apply_writes in *. simpl. rewrite IH, get_apply_write by exact Hw. reflexivity.
Qed.

Lemma shelf_writes_nonempty (src : Shelf) :
  forall parent, Forall (fun w => fst (fst w) <> []) (shelf_writes src parent).
Proof.
  induction src as [name d nodes subs HF] using Shelf_ind_nested.
  intros parent. simpl. constructor.
  - simpl. intros H. apply app_eq_nil in H. destruct H as [_ H]. discriminate H.
  - induction HF as [|sub subs Hsub HF IH]; [constructor|].
    apply Forall_app. split; [apply Hsub | exact IH].
Qed.

(** What a sequence of writes does to one path: nothing, or it ensures the
    entry, possibly sets its description (the last one written wins) and
    pushes the ids written there, in order. *)
Inductive Summary :=
| Untouched : Summary
| Touched : option string -> list string -> Summary.

Definition summ_step (p : Path) (sm : Summary) (w : Write) : Summary :=
  let '(q, description, ids) := w in
  if existsb (path_eqb p) (prefixes q) then
    let '(d0, ids0) := match sm with
                       | Untouched => (None, [])
                       | Touched d0 ids0 => (d0, ids0)
                       end in
    if path_eqb p q then Touched (Some description) (ids0 ++ ids) else Touched d0 ids0
  else sm.

Definition interp (p : Path) (sm : Summary) (o : option ShelfRecord) : option ShelfRecord :=
  match sm with
  | Untouched => o
  | Touched dopt ids =>
      let r := ensure_rec p o in
      Some (mkRecord (rec_name r)
                     (match dopt with Some d => d | None => rec_description r end)
                     (fold_left _unique_push ids (nodes_ref r)))
  end.

Lemma merge_record_eq (r : ShelfRecord) (d : string) (ids : list string) :
  merge_record r d ids = mkRecord (rec_name r) d (fold_left _unique_push ids (nodes_ref r)).
Proof.
  unfold merge_record. destruct (String.eqb d (rec_description r)) eqn:E; simpl.
  - apply String.eqb_eq in E. subst d. reflexivity.
  - reflexivity.
Qed.

Lemma path_step_interp (p : Path) (sm : Summary) (o : option ShelfRecord) (w : Write) :
  path_step p (interp p sm o) w = interp p (summ_step p sm w) o.
Proof.
  destruct w as [[q d] ids]. unfold path_step, summ_step.
  destruct (existsb (path_eqb p) (prefixes q)); [|reflexivity].
  destruct sm as [|dopt ids0]; destruct (path_eqb p q); simpl.
  - rewrite merge_record_eq. reflexivity.
  - destruct (ensure_rec p o); reflexivity.
  - rewrite merge_record_eq, fold_left_app. reflexivity.
  - reflexivity.
Qed.

Lemma fold_path_step (p : Path) (ws : list Write) :
  forall sm o, fold_left (path_step p) ws (interp p sm o)
               = interp p (fold_left (summ_step p) ws sm) o.
Proof.
  induction ws as [|w ws IH]; intros sm o; simpl; [reflexivity|].
  rewrite path_step_interp. apply IH.
Qed.

Lemma py_in_iff (x : string) (l : list string) : py_in String.eqb x l = true <-> In x l.
Proof.
  induction l as [|y l IH]; simpl; [split; [discriminate | contradiction]|].
  rewrite orb_true_iff, String.eqb_eq, IH. split; intros [H|H]; auto.
Qed.

Lemma push_keeps (ids n : list string) (x : string) :
  In x n -> In x (fold_left _unique_push ids n).
Proof.
  revert n. induction ids as [|y ids IH]; intros n Hx; simpl; [exact Hx|].
  apply IH. unfold _unique_push. destruct (py_in String.eqb y n); [exact Hx|].
  apply in_or_app. left. exact Hx.
Qed.

Lemma push_adds (ids n : list string) (x : string) :
  In x ids -> In x (fold_left _unique_push ids n).
Proof.
  revert n. induction ids as [|y ids IH]; intros n Hx; simpl; [contradiction|].
  destruct Hx as [->|Hx]; [|apply IH; exact Hx].
  apply push_keeps. unfold _unique_push. destruct (py_in String.eqb x n) eqn:E.
  - apply py_in_iff. exact E.
  - apply in_or_app. right. left. reflexivity.
Qed.

Lemma push_noop (ids n : list string) :
  (forall x, In x ids -> In x n) -> fold_left _unique_push ids n = n.
Proof.
  revert n. induction ids as [|y ids IH]; intros n H; simpl; [reflexivity|].
  unfold _unique_push at 2.
  assert (Hy : py_in String.eqb y n = true) by (apply py_in_iff, H; left; reflexivity).
  rewrite Hy. apply IH. intros x Hx. apply H. right. exact Hx.
Qed.

Lemma push_idem (ids n : list string) :
  fold_left _unique_push ids (fold_left _unique_push ids n) = fold_left _unique_push ids n.
Proof. apply push_noop. intros x Hx. apply push_adds. exact Hx. Qed.

Lemma interp_idem (p : Path) (sm : Summary) (o : option ShelfRecord) :
  interp p sm (interp p sm o) = interp p sm o.
Proof.
  destruct sm as [|dopt ids]; simpl; [reflexivity|].
  rewrite push_idem. destruct dopt; reflexivity.
Qed.

(** C7: merging the same shelf tree a second time changes no entry of the
    store: every path keeps exactly the record (name, description and
    node-id list) the first merge left, whatever the store held before. *)
Theorem add_shelf_idempotent (shelf : Shelf) (recs : Records) (p : Path) :
  dict_get path_eqb (add_shelf shelf (add_shelf shelf recs)) p
  = dict_get path_eqb (add_shelf shelf recs) p.
Proof.
  unfold add_shelf. rewrite !add_shelf_tree_writes.
  rewrite !(get_apply_writes _ (shelf_writes_nonempty shelf [])).
  assert (E : forall o, fold_left (path_step p) (shelf_writes shelf []) o
                        = interp p (fold_left (summ_step p) (shelf_writes shelf []) Untouched) o).
  { intros o. change o with (interp p Untouched o) at 1. apply fold_path_step. }
  rewrite !E. apply interp_idem.
Qed.

Definition sub_class : NodeClass := mkClass 2 "mypkg.nodes" "SubNode" "sub".

(** A tree with two sibling shelves of the same name: the later description
    wins and the node ids are merged without duplicates. *)
Definition math_tree : Shelf :=
  mkShelf "Math" "maths" [add_class]
    [mkShelf "Basic" "first" [sub_class; add_class] [];
     mkShelf "Basic" "second" [add_class] []].

Example add_shelf_math_tree :
  add_shelf math_tree []
  = [(["Math"], mkRecord "Math" "maths" ["add"]);
     (["Math"; "Basic"], mkRecord "Basic" "second" ["sub"; "add"])].
Proof. vm_compute. reflexivity. Qed.

End LibraryFacts.

Module NodeTriggerExtraFacts.

Import NodeTrigger NodeTriggerFacts.

(** Case split over every flag the trigger cycle reads. *)
Ltac node_cases n :=
  destruct n as [lr ir st op rq];
  unfold ready_to_trigger, ready, inputs_ready, in_trigger, stack_after_check,
    set_triggerstack, set_requests_trigger in *; simpl in *;
  destruct lr; simpl in *;
  destruct (forallb (fun b => b) ir) eqn:Hir; simpl in *;
  destruct st as [t|]; simpl in *; try destruct (stack_done t) eqn:Hd; simpl in *;
  destruct op; simpl in *.

(** [request_trigger] never raises.  A node ready to trigger is triggered
    with a fresh one-task stack and its request flag cleared; otherwise
    loop, inputs and trigger-open flag stay, the stack is at most cleared
    of a finished one, and the request flag is set unless the trigger
    window is open, in which case it is left alone. *)
Theorem request_trigger_effect (n : NodeState) :
  exists n', request_trigger n = Returned tt n'
  /\ (fst (ready_to_trigger n) = true ->
      n' = mkNode (loop_running n) (inputs_ready_flags n) (Some (mkStack [false])) true false)
  /\ (fst (ready_to_trigger n) = false ->
      loop_running n' = loop_running n
      /\ inputs_ready_flags n' = inputs_ready_flags n
      /\ _trigger_open n' = _trigger_open n
      /\ (_triggerstack n' = _triggerstack n \/ _triggerstack n' = stack_after_check n)
      /\ _requests_trigger n' = if _trigger_open n then _requests_trigger n else true).
Proof.
  unfold request_trigger, trigger.
  node_cases n; eexists; (split; [reflexivity|]);
    split; intros H; try discriminate H; try reflexivity;
    repeat split; auto.
Qed.

(** [trigger_if_requested] never raises and returns whether it triggered:
    exactly when a trigger was requested and the node is ready to trigger.
    Without a request it touches nothing; when it triggers, the passed
    stack gains one unfinished task, the window opens and the request is
    cleared. *)
Theorem trigger_if_requested_effect (ts : option TriggerStack) (n : NodeState) :
  exists b n', trigger_if_requested ts n = Returned b n'
  /\ b = _requests_trigger n && fst (ready_to_trigger n)
  /\ (_requests_trigger n = false -> n' = n)
  /\ (b = true ->
      n' = mkNode (loop_running n) (inputs_ready_flags n)
             (Some (mkStack (ts_tasks (match ts with Some t => t | None => mkStack [] end) ++ [false])))
             true false).
Proof.
  unfold trigger_if_requested, trigger.
  node_cases n; destruct rq; simpl;
    do 2 eexists; (split; [reflexivity|]); repeat split; intros H;
    try discriminate H; reflexivity.
Qed.

(** [trigger] succeeds exactly on a node not in trigger, and a node it
    succeeded on is in trigger: a second [trigger], with any stack, raises. *)
Theorem trigger_then_busy (ts ts2 : option TriggerStack) (n n' : NodeState) (ts' : TriggerStack) :
  trigger ts n = Returned ts' n' ->
  fst (in_trigger n) = false
  /\ fst (in_trigger n') = true
  /\ _requests_trigger n' = false
  /\ exists n'', trigger ts2 n' = Raised InTriggerError n''.
Proof.
  intros H.
  assert (Busy : fst (in_trigger n') = true).
  { revert H. unfold trigger. destruct (in_trigger n) as [b n1].
    destruct b; intros H; [discriminate H|]. injection H as <- <-.
    unfold in_trigger. simpl. destruct (stack_done _); simpl; rewrite ?orb_true_r; reflexivity. }
  revert H. unfold trigger at 1. destruct (in_trigger n) as [b n1].
  destruct b; intros H; [discriminate H|]. injection H as <- <-.
  repeat split; [exact Busy|].
  unfold trigger. revert Busy. destruct (in_trigger _) as [b n2]. simpl.
  intros ->. eexists. reflexivity.
Qed.

Lemma trigger_then_busy_witness :
  trigger None (mkNode true [true] None false true)
    = Returned (mkStack [false]) (mkNode true [true] (Some (mkStack [false])) true false)
  /\ exists n'', trigger None (mkNode true [true] (Some (mkStack [false])) true false)
                 = Raised InTriggerError n''.
Proof.
  split; [reflexivity|].
  destruct (trigger_then_busy None None (mkNode true [true] None false true)
              (mkNode true [true] (Some (mkStack [false])) true false) (mkStack [false])
              eq_refl) as [_ [_ [_ H]]].
  exact H.
Defined.

(** [in_trigger_soon] is truthy exactly when the node is in trigger
    (unfinished stack or open window) or, not being in trigger, has a
    running loop, all inputs ready and a pending request. *)
Theorem in_trigger_soon_iff (n : NodeState) :
  fst (in_trigger_soon n) = true <->
  in_trigger_cond n
  \/ (loop_running n = true /\ Forall (fun b => b = true) (inputs_ready_flags n)
      /\ _requests_trigger n = true).
Proof.
  rewrite <- forallb_true_iff. unfold in_trigger_soon, will_trigger, in_trigger_cond.
  node_cases n; destruct rq; rewrite ?Hir; simpl;
    split; intros H; try reflexivity; try discriminate H;
    repeat match goal with
           | H : _ \/ _ |- _ => destruct H
           | H : _ /\ _ |- _ => destruct H
           | H : exists _, _ |- _ => destruct H
           end; try discriminate; try congruence;
    try (left; right; reflexivity); try (left; left; eexists; split; [reflexivity|assumption]);
    try (right; repeat split; reflexivity).
Qed.

End NodeTriggerExtraFacts.

Module PretriggerSpeedExtraFacts.

Import PretriggerDelay TriggerSpeed.

(** On finite values the constructor and the setter agree: a value
    [>= 0] is kept by both (and read back by the getter), a negative one is
    rejected by both, the constructor falling back to the default and the
    setter raising with the stored delay untouched. *)
Theorem pretrigger_finite_agree (default stored : pyfloat) (q : Q) :
  (Qle 0 q ->
   init_pretrigger_delay default (Some (Num q)) = Num q
   /\ set_pretrigger_delay default stored (Some (Num q)) = SetOk (Num q)
   /\ get_pretrigger_delay (stored_after (set_pretrigger_delay default stored (Some (Num q)))) = Num q)
  /\ (Qlt q 0 ->
      init_pretrigger_delay default (Some (Num q)) = default
      /\ set_pretrigger_delay default stored (Some (Num q)) = SetValueError stored).
Proof.
  split.
  - intros Hq. unfold init_pretrigger_delay, set_pretrigger_delay, py_ge, py_lt, zero.
    assert (Hb : Qle_bool 0 q = true) by (apply Qle_bool_iff; exact Hq).
    rewrite Hb. repeat split.
  - apply PretriggerDelayFacts.pretrigger_negative_paths.
Qed.

Lemma pretrigger_finite_agree_witness :
  (Qle 0 (1 # 2) -> set_pretrigger_delay zero zero (Some (Num (1 # 2))) = SetOk (Num (1 # 2)))
  /\ (Qlt (-1) 0 -> set_pretrigger_delay zero zero (Some (Num (-1))) = SetValueError zero).
Proof.
  split.
  - intros H. apply (pretrigger_finite_agree zero zero (1 # 2)). exact H.
  - intros H. apply (pretrigger_finite_agree zero zero (-1)). exact H.
Defined.

Section SpeedFacts.
Variable R : Type.
Variable add mul : R -> R -> R.
Variable le : R -> R -> bool.
Variable lit : Q -> R.



End SpeedFacts.



End PretriggerSpeedExtraFacts.

Module DictExtraFacts.

Import PyDict.

Section Keys.
Variables K V : Type.
Variable eqb : K -> K -> bool.
Hypothesis eqb_iff : forall a b, eqb a b = true <-> a = b.

Lemma eqb_false_neq (a b : K) : eqb a b = false <-> a <> b.
Proof.
  split.
  - intros H E. apply eqb_iff in E. congruence.
  - intros H. destruct (eqb a b) eqn:E; [|reflexivity]. apply eqb_iff in E. contradiction.
Qed.

Lemma get_notin (d : list (K * V)) (k : K) :
  ~ In k (map fst d) -> dict_get eqb d k = None.
Proof.
  induction d as [|[k0 v0] d IH]; simpl; intros H; [reflexivity|].
  destruct (eqb k k0) eqn:E.
  - apply eqb_iff in E. subst. exfalso. apply H. left. reflexivity.
  - apply IH. intros Hin. apply H. right. exact Hin.
Qed.

Lemma get_del_other (d : list (K * V)) (k k' : K) :
  k' <> k -> dict_get eqb (dict_del eqb d k) k' = dict_get eqb d k'.
Proof.
  intros Hne. induction d as [|[k0 v0] d IH]; simpl; [reflexivity|].
  destruct (eqb k k0) eqn:E; simpl.
  - apply eqb_iff in E. subst k0. apply eqb_false_neq in Hne. rewrite Hne. reflexivity.
  - rewrite IH. reflexivity.
Qed.

Lemma get_del_same (d : list (K * V)) (k : K) :
  NoDup (map fst d) -> dict_get eqb (dict_del eqb d k) k = None.
Proof.
  induction d as [|[k0 v0] d IH]; simpl; intros Hnd; [reflexivity|].
  inversion Hnd as [|? ? Hn Hnd']; subst.
  destruct (eqb k k0) eqn:E; simpl.
  - apply eqb_iff in E. subst k0. apply get_notin. exact Hn.
  - rewrite E. apply IH. exact Hnd'.
Qed.

Lemma keys_set_in (d : list (K * V)) (k x : K) (v : V) :
  In x (map fst (dict_set eqb d k v)) -> In x (map fst d) \/ x = k.
Proof.
  induction d as [|[k0 v0] d IH]; simpl.
  - intros [H|[]]. right. symmetry. exact H.
  - destruct (eqb k k0); simpl; intros [H|H]; auto.
    destruct (IH H); auto.
Qed.

Lemma keys_del_in (d : list (K * V)) (k x : K) :
  In x (map fst (dict_del eqb d k)) -> In x (map fst d).
Proof.
  induction d as [|[k0 v0] d IH]; simpl; [tauto|].
  destruct (eqb k k0); simpl; intros H; [right; exact H|].
  destruct H as [H|H]; [left; exact H | right; apply IH; exact H].
Qed.

Lemma nodup_set (d : list (K * V)) (k : K) (v : V) :
  NoDup (map fst d) -> NoDup (map fst (dict_set eqb d k v)).
Proof.
  induction d as [|[k0 v0] d IH]; simpl; intros Hnd.
  - constructor; [tauto | constructor].
  - inversion Hnd as [|? ? Hn Hnd']; subst.
    destruct (eqb k k0) eqn:E; simpl; constructor; auto.
    intros Hin. destruct (keys_set_in d k k0 v Hin) as [H|H]; [contradiction|].
    apply eqb_false_neq in E. congruence.
Qed.

Lemma nodup_del (d : list (K * V)) (k : K) :
  NoDup (map fst d) -> NoDup (map fst (dict_del eqb d k)).
Proof.
  induction d as [|[k0 v0] d IH]; simpl; intros Hnd; [constructor|].
  inversion Hnd as [|? ? Hn Hnd']; subst.
  destruct (eqb k k0); simpl; [exact Hnd'|].
  constructor; auto. intros Hin. apply Hn. apply (keys_del_in d k). exact Hin.
Qed.

Lemma notin_del (d : list (K * V)) (k : K) :
  NoDup (map fst d) -> ~ In k (map fst (dict_del eqb d k)).
Proof.
  induction d as [|[k0 v0] d IH]; simpl; intros Hnd; [tauto|].
  inversion Hnd as [|? ? Hn Hnd']; subst.
  destruct (eqb k k0) eqn:E; simpl.
  - apply eqb_iff in E. subst. exact Hn.
  - intros [H|H]; [subst; apply eqb_false_neq in E; congruence | exact (IH Hnd' H)].
Qed.

End Keys.

Arguments get_notin {K V} eqb eqb_iff d k.
Arguments get_del_other {K V} eqb eqb_iff d k k'.
Arguments get_del_same {K V} eqb eqb_iff d k.
Arguments nodup_set {K V} eqb eqb_iff d k v.
Arguments nodup_del {K V} eqb d k.
Arguments notin_del {K V} eqb eqb_iff d k.

End DictExtraFacts.

Module EmitterExtraFacts.

Import PyDict Emitter EmitterFacts DictExtraFacts.
Open Scope nat_scope.
Open Scope string_scope.
Open Scope list_scope.

Lemma listener_eqb_iff (a b : Listener) : listener_eqb a b = true <-> a = b.
Proof.
  destruct a as [n|w n], b as [m|v m]; simpl; split; intros H; try discriminate H.
  - apply Nat.eqb_eq in H. subst. reflexivity.
  - injection H as ->. apply Nat.eqb_refl.
  - apply andb_true_iff in H. destruct H as [H1 H2].
    apply Nat.eqb_eq in H1, H2. subst. reflexivity.
  - injection H as -> ->. rewrite !Nat.eqb_refl. reflexivity.
Qed.

Lemma err_listener_eqb_iff (a b : ErrListener) : err_listener_eqb a b = true <-> a = b.
Proof.
  destruct a as [n|w n], b as [m|v m]; simpl; split; intros H; try discriminate H.
  - apply Nat.eqb_eq in H. subst. reflexivity.
  - injection H as ->. apply Nat.eqb_refl.
  - apply andb_true_iff in H. destruct H as [H1 H2].
    apply Nat.eqb_eq in H1, H2. subst. reflexivity.
  - injection H as -> ->. rewrite !Nat.eqb_refl. reflexivity.
Qed.

Section PyList.
Variable A : Type.
Variable eqb : A -> A -> bool.
Hypothesis eqb_iff : forall a b, eqb a b = true <-> a = b.

Lemma py_in_In (x : A) (l : list A) : py_in eqb x l = true <-> In x l.
Proof.
  induction l as [|y l IH]; simpl; [split; [discriminate | tauto]|].
  rewrite orb_true_iff, IH, eqb_iff. split; intros [H|H]; auto.
Qed.

Lemma py_remove_last (x : A) (l : list A) :
  ~ In x l -> py_remove eqb x (l ++ [x]) = l.
Proof.
  induction l as [|y l IH]; simpl; intros Hn.
  - rewrite (proj2 (eqb_iff x x) eq_refl). reflexivity.
  - destruct (eqb x y) eqn:E.
    + apply eqb_iff in E. subst. exfalso. apply Hn. left. reflexivity.
    + rewrite IH; [reflexivity|]. intros H. apply Hn. right. exact H.
Qed.

End PyList.

Arguments py_in_In {A} eqb eqb_iff x l.
Arguments py_remove_last {A} eqb eqb_iff x l.

(** Python dicts never hold a key twice: the invariant of [_events]. *)
Definition keys_unique (s : EmitterState) : Prop := NoDup (map fst (_events s)).

Lemma listeners_events (s : EmitterState) (ev : list (string * list Listener)) e :
  listeners (with_events s ev) e = match dict_get String.eqb ev e with Some l => l | None => [] end.
Proof. reflexivity. Qed.

Lemma on_listeners (e e' : string) (cb : Listener) (s : EmitterState) :
  listeners (on e cb s) e'
  = if String.eqb e' e
    then if py_in listener_eqb cb (listeners s e) then listeners s e else listeners s e ++ [cb]
    else listeners s e'.
Proof.
  unfold on. destruct (py_in listener_eqb cb (listeners s e));
    rewrite listeners_events, (PyDictFacts.dict_get_set String.eqb String.eqb_eq);
    destruct (String.eqb e' e); reflexivity.
Qed.

(** [on(e, cb)] appends [cb] to the listeners of [e] unless it is already
    there, leaves every other event's listeners and the recorded calls
    alone, and so never registers a callback twice. *)
Theorem on_appends_once (e e' : string) (cb : Listener) (s : EmitterState) :
  listeners (on e cb s) e'
  = (if String.eqb e' e
     then if py_in listener_eqb cb (listeners s e) then listeners s e else listeners s e ++ [cb]
     else listeners s e')
  /\ calls (on e cb s) = calls s
  /\ (NoDup (listeners s e) -> NoDup (listeners (on e cb s) e)).
Proof.
  split; [apply on_listeners|]. split.
  - unfold on. destruct (py_in _ _ _); reflexivity.
  - intros Hnd. rewrite on_listeners, String.eqb_refl.
    destruct (py_in listener_eqb cb (listeners s e)) eqn:E; [exact Hnd|].
    apply NoDup_app; [exact Hnd | constructor; [tauto | constructor] |].
    intros x Hx [Hy|[]]. subst x.
    apply (py_in_In listener_eqb listener_eqb_iff) in Hx. congruence.
Qed.

Lemma listeners_set (s : EmitterState) ev k v e' :
  listeners (with_events s (dict_set String.eqb ev k v)) e'
  = if String.eqb e' k then v else listeners (with_events s ev) e'.
Proof.
  rewrite !listeners_events, (PyDictFacts.dict_get_set String.eqb String.eqb_eq).
  destruct (String.eqb e' k); reflexivity.
Qed.

Lemma listeners_del (s : EmitterState) ev k e' :
  NoDup (map fst ev) ->
  listeners (with_events s (dict_del String.eqb ev k)) e'
  = if String.eqb e' k then [] else listeners (with_events s ev) e'.
Proof.
  intros Hnd. rewrite !listeners_events.
  destruct (String.eqb e' k) eqn:E.
  - apply String.eqb_eq in E. subst. rewrite (get_del_same String.eqb String.eqb_eq); auto.
  - apply String.eqb_neq in E. rewrite (get_del_other String.eqb String.eqb_eq); auto.
Qed.

(** [off(e, cb)] undoes [on(e, cb)] for a callback that was not yet
    registered: every event's listeners are as before, and no key is
    duplicated. *)
Theorem off_undoes_on (e e' : string) (cb : Listener) (s : EmitterState) :
  keys_unique s ->
  py_in listener_eqb cb (listeners s e) = false ->
  listeners (off e (Some cb) (on e cb s)) e' = listeners s e'
  /\ keys_unique (off e (Some cb) (on e cb s)).
Proof.
  intros Hu Hn. unfold keys_unique in *.
  assert (Hnl : ~ In cb (listeners s e)).
  { intros H. apply (py_in_In listener_eqb listener_eqb_iff) in H. congruence. }
  unfold on. rewrite Hn. unfold off. simpl.
  rewrite (PyDictFacts.dict_get_set String.eqb String.eqb_eq), String.eqb_refl.
  assert (Hin : py_in listener_eqb cb (listeners s e ++ [cb]) = true).
  { apply (py_in_In listener_eqb listener_eqb_iff). apply in_or_app. right. left. reflexivity. }
  rewrite Hin, (py_remove_last listener_eqb listener_eqb_iff) by exact Hnl.
  assert (Hs : listeners (with_events s (_events s)) e' = listeners s e') by reflexivity.
  destruct (listeners s e) as [|x l] eqn:El.
  - split.
    + rewrite listeners_del by (apply (nodup_set String.eqb String.eqb_eq); exact Hu).
      simpl. rewrite listeners_set.
      destruct (String.eqb e' e) eqn:E; [|reflexivity].
      apply String.eqb_eq in E. subst. symmetry. exact El.
    + simpl. apply (nodup_del String.eqb). apply (nodup_set String.eqb String.eqb_eq). exact Hu.
  - split.
    + rewrite listeners_set. simpl. rewrite listeners_set.
      destruct (String.eqb e' e) eqn:E; [|reflexivity].
      apply String.eqb_eq in E. subst. symmetry. exact El.
    + simpl. apply (nodup_set String.eqb String.eqb_eq). apply (nodup_set String.eqb String.eqb_eq).
      exact Hu.
Qed.

Lemma off_undoes_on_witness :
  keys_unique fresh_emitter /\ py_in listener_eqb (LPlain 1) (listeners fresh_emitter "test") = false
  /\ listeners (off "test" (Some (LPlain 1)) (on "test" (LPlain 1) fresh_emitter)) "test" = [].
Proof.
  assert (H1 : keys_unique fresh_emitter) by constructor.
  assert (H2 : py_in listener_eqb (LPlain 1) (listeners fresh_emitter "test") = false) by reflexivity.
  split; [exact H1|]. split; [exact H2|].
  exact (proj1 (off_undoes_on "test" "test" (LPlain 1) fresh_emitter H1 H2)).
Defined.

(** [off(e)] with no callback removes the key [e]: its listeners are
    gone, the other events keep theirs and the keys stay unique. *)
Theorem off_all_removes_event (e e' : string) (s : EmitterState) :
  keys_unique s ->
  listeners (off e None s) e' = (if String.eqb e' e then [] else listeners s e')
  /\ ~ In e (map fst (_events (off e None s)))
  /\ keys_unique (off e None s)
  /\ calls (off e None s) = calls s.
Proof.
  intros Hu. unfold keys_unique in *. unfold off.
  destruct (dict_get String.eqb (_events s) e) as [l|] eqn:Eg.
  - simpl. split; [|split; [|split]].
    + rewrite listeners_del by exact Hu. reflexivity.
    + simpl. apply (notin_del String.eqb String.eqb_eq). exact Hu.
    + simpl. apply (nodup_del String.eqb). exact Hu.
    + reflexivity.
  - split; [|split; [|split]]; try exact Hu; try reflexivity.
    + destruct (String.eqb e' e) eqn:E; [|reflexivity].
      apply String.eqb_eq in E. subst. unfold listeners. rewrite Eg. reflexivity.
    + intros Hin. apply in_map_iff in Hin. destruct Hin as [[k l] [Hk Hin]]. simpl in Hk. subst k.
      clear Hu. induction (_events s) as [|[k0 l0] ev IH]; simpl in *; [contradiction|].
      destruct (String.eqb e k0) eqn:E; [discriminate|].
      destruct Hin as [Hin|Hin]; [|exact (IH Eg Hin)].
      injection Hin as -> ->. rewrite String.eqb_refl in E. discriminate.
Qed.

Lemma off_all_removes_event_witness :
  keys_unique (on "test" (LPlain 1) fresh_emitter)
  /\ listeners (off "test" None (on "test" (LPlain 1) fresh_emitter)) "test" = [].
Proof.
  assert (H : keys_unique (on "test" (LPlain 1) fresh_emitter)) by (vm_compute; repeat constructor; simpl; tauto).
  split; [exact H|].
  exact (proj1 (off_all_removes_event "test" "test" (on "test" (LPlain 1) fresh_emitter) H)).
Defined.

(** Without listeners for the event and without wildcard listeners, [emit]
    returns [False] and changes nothing. *)
Theorem emit_unheard (e : string) (s : EmitterState) :
  listeners s e = [] -> listeners s "*" = [] ->
  emit e None s = EmitReturned false s.
Proof.
  intros He Hs. unfold emit, emit_body. rewrite He. simpl. rewrite Hs. reflexivity.
Qed.

Lemma emit_unheard_witness :
  listeners fresh_emitter "test" = [] /\ listeners fresh_emitter "*" = []
  /\ emit "test" None fresh_emitter = EmitReturned false fresh_emitter.
Proof.
  assert (H1 : listeners fresh_emitter "test" = []) by reflexivity.
  assert (H2 : listeners fresh_emitter "*" = []) by reflexivity.
  split; [exact H1|]. split; [exact H2|].
  exact (emit_unheard "test" fresh_emitter H1 H2).
Defined.

(** A [once] listener that is alone on its event fires on the first
    [emit], with the message, and is gone afterwards: the next [emit]
    reaches nobody and returns [False]. *)
Theorem once_fires_once (e : string) (w n : nat) (s : EmitterState) :
  keys_unique s -> e <> "*" ->
  listeners s e = [LOnce w n] -> listeners s "*" = [] ->
  exists s1, emit e None s = EmitReturned true s1
  /\ calls s1 = calls s ++ [(n, None)]
  /\ listeners s1 e = []
  /\ emit e None s1 = EmitReturned false s1.
Proof.
  intros Hu Hne He Hs. unfold keys_unique in Hu.
  assert (Hg : dict_get String.eqb (_events s) e = Some [LOnce w n]).
  { unfold listeners in He. destruct (dict_get String.eqb (_events s) e) eqn:G; [congruence|discriminate]. }
  set (s1 := record_call n None (with_events s (dict_del String.eqb (_events s) e))).
  assert (Hs1e : listeners s1 e = []).
  { unfold s1. change (listeners (with_events s (dict_del String.eqb (_events s) e)) e = []).
    rewrite listeners_del by exact Hu. rewrite String.eqb_refl. reflexivity. }
  assert (Hs1s : listeners s1 "*" = []).
  { unfold s1. change (listeners (with_events s (dict_del String.eqb (_events s) e)) "*" = []).
    rewrite listeners_del by exact Hu.
    destruct (String.eqb "*" e) eqn:E; [reflexivity|]. exact Hs. }
  assert (Hemit : emit e None s = EmitReturned true s1).
  { unfold emit, emit_body. rewrite He. simpl.
    rewrite He. simpl. unfold off. rewrite Hg. simpl. rewrite !Nat.eqb_refl. simpl.
    fold (with_events s (dict_del String.eqb (_events s) e)). fold s1.
    rewrite Hs1s. reflexivity. }
  exists s1. split; [exact Hemit|]. split; [reflexivity|]. split; [exact Hs1e|].
  apply emit_unheard; assumption.
Qed.

Lemma once_fires_once_witness :
  keys_unique (once "test" 100 1 fresh_emitter)
  /\ exists s1, emit "test" None (once "test" 100 1 fresh_emitter) = EmitReturned true s1
     /\ calls s1 = [(1, None)]
     /\ emit "test" None s1 = EmitReturned false s1.
Proof.
  assert (Hu : keys_unique (once "test" 100 1 fresh_emitter))
    by (vm_compute; repeat constructor; simpl; tauto).
  split; [exact Hu|].
  destruct (once_fires_once "test" 100 1 (once "test" 100 1 fresh_emitter) Hu
              ltac:(discriminate) eq_refl eq_refl) as [s1 [H1 [H2 [_ H4]]]].
  exists s1. split; [exact H1|]. split; [exact H2 | exact H4].
Defined.

(** The callback an error listener ends up calling. *)
Definition eid (l : ErrListener) : nat := match l with EPlain n => n | EOnce _ n => n end.

Lemma error_dispatch_plain (err : nat) :
  forall fuel i s,
  Forall (fun l => exists n, l = EPlain n) (_error_events s) ->
  List.length (_error_events s) <= i + fuel ->
  error_dispatch fuel err i s
  = mkEmitter (self_id s) (_events s) (_error_events s) (calls s)
      (error_calls s ++ map (fun l => (eid l, err, self_id s)) (skipn i (_error_events s))).
Proof.
  induction fuel as [|fuel IH]; intros i s Hp Hlen; simpl.
  - rewrite Nat.add_0_r in Hlen. rewrite skipn_all2 by exact Hlen. simpl.
    rewrite app_nil_r. destruct s; reflexivity.
  - destruct (nth_error (_error_events s) i) as [cb|] eqn:Hn.
    + destruct (proj1 (Forall_forall _ _) Hp cb (nth_error_In _ _ Hn)) as [m ->].
      simpl. rewrite IH; simpl; [| exact Hp | lia].
      rewrite (skipn_at_nth _ _ _ Hn). simpl. rewrite <- app_assoc. reflexivity.
    + apply nth_error_None in Hn. rewrite skipn_all2 by exact Hn. simpl.
      rewrite app_nil_r. destruct s; reflexivity.
Qed.

(** [error(e)] without error listeners re-raises [e] and changes nothing;
    with error listeners that leave the list alone, it calls each of them,
    in order, with [(error=e, src=self)] and returns [True]. *)
Theorem error_plain_listeners (err : nat) (s : EmitterState) :
  (_error_events s = [] -> error err s = Reraised err s)
  /\ (Forall (fun l => exists n, l = EPlain n) (_error_events s) -> _error_events s <> [] ->
      error err s
      = ErrorReturned true
          (mkEmitter (self_id s) (_events s) (_error_events s) (calls s)
             (error_calls s ++ map (fun l => (eid l, err, self_id s)) (_error_events s)))).
Proof.
  split.
  - intros H. unfold error. rewrite H. reflexivity.
  - intros Hp Hne. unfold error.
    assert (Hlt : Nat.ltb 0 (List.length (_error_events s)) = true)
      by (destruct (_error_events s); [contradiction | reflexivity]).
    rewrite Hlt, error_dispatch_plain by (exact Hp || lia). reflexivity.
Qed.

(** Registering an error listener twice registers it once, and
    [off_error(cb)] undoes [on_error(cb)] for a callback not yet
    registered. *)
Theorem on_error_off_error (cb : ErrListener) (s : EmitterState) :
  on_error cb (on_error cb s) = on_error cb s
  /\ (py_in err_listener_eqb cb (_error_events s) = false ->
      off_error (Some cb) (on_error cb s) = s).
Proof.
  split.
  - unfold on_error. destruct (py_in err_listener_eqb cb (_error_events s)) eqn:E; [rewrite E; reflexivity|].
    simpl. assert (Hin : py_in err_listener_eqb cb (_error_events s ++ [cb]) = true).
    { apply (py_in_In err_listener_eqb err_listener_eqb_iff). apply in_or_app. right. left. reflexivity. }
    rewrite Hin. reflexivity.
  - intros E. unfold on_error, off_error. rewrite E. simpl.
    assert (Hin : py_in err_listener_eqb cb (_error_events s ++ [cb]) = true).
    { apply (py_in_In err_listener_eqb err_listener_eqb_iff). apply in_or_app. right. left. reflexivity. }
    rewrite Hin, (py_remove_last err_listener_eqb err_listener_eqb_iff).
    + destruct s; reflexivity.
    + intros H. apply (py_in_In err_listener_eqb err_listener_eqb_iff) in H. congruence.
Qed.

Lemma off_all_head (k : string) (l : list Listener) (ev : list (string * list Listener))
    (s : EmitterState) :
  _events s = (k, l) :: ev -> off k None s = with_events s ev.
Proof. intros H. unfold off. rewrite H. cbn [dict_get dict_del]. rewrite String.eqb_refl. reflexivity. Qed.

(** [cleanup] empties [_events] and [_error_events] whatever they held,
    and records no call. *)
Theorem cleanup_clears (s : EmitterState) :
  cleanup s = mkEmitter (self_id s) [] [] (calls s) (error_calls s).
Proof.
  unfold cleanup.
  assert (H : forall ev acc, _events acc = ev ->
            fold_left (fun acc k => off k None acc) (map fst ev) acc
            = mkEmitter (self_id acc) [] (_error_events acc) (calls acc) (error_calls acc)).
  { induction ev as [|[k l] ev IH]; intros acc Hacc; simpl.
    - destruct acc; simpl in *; subst; reflexivity.
    - rewrite (off_all_head k l ev acc Hacc). rewrite IH by reflexivity. reflexivity. }
  rewrite (H (_events s) s eq_refl). reflexivity.
Qed.

Lemma on_appends_once_witness :
  NoDup (listeners fresh_emitter "test") /\
  NoDup (listeners (on "test" (LPlain 1) fresh_emitter) "test").
Proof.
  assert (H : NoDup (listeners fresh_emitter "test")) by constructor.
  split; [exact H|].
  exact (proj2 (proj2 (on_appends_once "test" "test" (LPlain 1) fresh_emitter)) H).
Defined.
End EmitterExtraFacts.

Module RegistryExtraFacts.

Import PyDict Registry RegistryFacts.
Open Scope string_scope.

(** Whatever the override flag, a successful [register_node] makes
    [get_nodeclass] return the new class under its id and leaves every
    other id as it was. *)
Theorem register_then_get (flag : bool) (c : NodeClass) (reg reg' : Registry) :
  register_node flag c reg = Registered reg' ->
  get_nodeclass reg' (node_id c) = Found c
  /\ forall k, k <> node_id c -> get_nodeclass reg' k = get_nodeclass reg k.
Proof.
  intros H.
  assert (Hreg : reg' = dict_set String.eqb reg (node_id c) c).
  { revert H. unfold register_node.
    destruct (dict_get String.eqb reg (node_id c)) as [old|]; [|congruence].
    destruct flag; simpl; [congruence|].
    destruct (String.eqb _ _); simpl; congruence. }
  subst reg'. unfold get_nodeclass. split.
  - rewrite registry_get_set, String.eqb_refl. reflexivity.
  - intros k Hk. rewrite registry_get_set. apply String.eqb_neq in Hk. rewrite Hk. reflexivity.
Qed.

Lemma register_then_get_witness :
  register_node false class_v1 [] = Registered [("add", class_v1)]
  /\ get_nodeclass [("add", class_v1)] "add" = Found class_v1.
Proof.
  assert (H : register_node false class_v1 [] = Registered [("add", class_v1)]) by reflexivity.
  split; [exact H|].
  exact (proj1 (register_then_get false class_v1 [] _ H)).
Defined.

(** [register_node] raises only with the override flag unset, for an id
    already held by a class whose module-plus-name string differs, and
    then leaves the registry as it was; in particular it never raises
    with the flag set. *)
Theorem register_fails_only_on_conflict (flag : bool) (c : NodeClass) (reg reg' : Registry) :
  register_node flag c reg = NodeIdAlreadyExistsError reg' ->
  reg' = reg /\ flag = false
  /\ exists old, get_nodeclass reg (node_id c) = Found old
       /\ cls_module old ++ cls_name old <> cls_module c ++ cls_name c.
Proof.
  unfold register_node, get_nodeclass.
  destruct (dict_get String.eqb reg (node_id c)) as [old|]; [|discriminate].
  destruct flag; simpl; [discriminate|].
  destruct (String.eqb (cls_module old ++ cls_name old) (cls_module c ++ cls_name c)) eqn:E;
    simpl; [discriminate|].
  intros H. injection H as <-. split; [reflexivity|]. split; [reflexivity|].
  exists old. split; [reflexivity|]. apply String.eqb_neq. exact E.
Qed.

Definition sub_v1 : NodeClass := mkClass 3 "otherpkg" "Add" "add".

Lemma register_fails_only_on_conflict_witness :
  register_node false sub_v1 [("add", class_v1)] = NodeIdAlreadyExistsError [("add", class_v1)]
  /\ exists old, get_nodeclass [("add", class_v1)] (node_id sub_v1) = Found old.
Proof.
  assert (H : register_node false sub_v1 [("add", class_v1)]
              = NodeIdAlreadyExistsError [("add", class_v1)]) by reflexivity.
  split; [exact H|].
  destruct (register_fails_only_on_conflict false sub_v1 _ _ H) as [_ [_ [old [Hg _]]]].
  exists old. exact Hg.
Defined.

End RegistryExtraFacts.

Module NodePortsFacts.

Import PyDict NodePorts DictExtraFacts.
Open Scope string_scope.
Open Scope list_scope.

Lemma py_in_string_In (x : string) (l : list string) : py_in String.eqb x l = true <-> In x l.
Proof.
  induction l as [|y l IH]; simpl; [split; [discriminate | tauto]|].
  rewrite orb_true_iff, IH, String.eqb_eq. split; intros [H|H]; auto.
Qed.

Lemma find_io_notin (u : string) (l : list NodeIO) :
  ~ In u (map io_uuid l) -> find_io u l = None.
Proof.
  induction l as [|x l IH]; simpl; intros H; [reflexivity|].
  destruct (String.eqb (io_uuid x) u) eqn:E.
  - apply String.eqb_eq in E. exfalso. apply H. left. exact E.
  - apply IH. intros Hin. apply H. right. exact Hin.
Qed.

Lemma find_io_app (u : string) (l1 l2 : list NodeIO) :
  find_io u (l1 ++ l2) = match find_io u l1 with Some io => Some io | None => find_io u l2 end.
Proof.
  induction l1 as [|x l1 IH]; simpl; [reflexivity|].
  destruct (String.eqb (io_uuid x) u); [reflexivity | exact IH].
Qed.

(** [add_input] / [add_output] raise for a taken uuid; otherwise they
    append the io, reset the cached dict, keep the uuids unique, and
    [get_input] then finds the new io by its uuid and every other uuid
    as before. *)
Theorem add_io_effect (io : NodeIO) (p : IOList) :
  (In (io_uuid io) (map io_uuid (_ios p)) -> add_io io p = None)
  /\ (~ In (io_uuid io) (map io_uuid (_ios p)) ->
      exists p', add_io io p = Some p'
      /\ _ios p' = _ios p ++ [io]
      /\ _ios_dict p' = None
      /\ get_io p' (io_uuid io) = Some io
      /\ (forall u, u <> io_uuid io -> get_io p' u = get_io p u)
      /\ (NoDup (map io_uuid (_ios p)) -> NoDup (map io_uuid (_ios p')))).
Proof.
  unfold add_io. split.
  - intros H. apply py_in_string_In in H. rewrite H. reflexivity.
  - intros H. destruct (py_in String.eqb (io_uuid io) (map io_uuid (_ios p))) eqn:E.
    { apply py_in_string_In in E. contradiction. }
    eexists. split; [reflexivity|]. simpl. split; [reflexivity|]. split; [reflexivity|].
    unfold get_io. simpl. split; [|split].
    + rewrite find_io_app, find_io_notin by exact H. simpl. rewrite String.eqb_refl. reflexivity.
    + intros u Hu. rewrite find_io_app. simpl.
      assert (Hne : String.eqb (io_uuid io) u = false)
        by (apply String.eqb_neq; intros Heq; apply Hu; symmetry; exact Heq).
      rewrite Hne. destruct (find_io u (_ios p)); reflexivity.
    + intros Hnd. rewrite map_app. simpl. apply NoDup_app; [exact Hnd | constructor; [tauto | constructor] |].
      intros x Hx [Hy|[]]. subst x. contradiction.
Qed.

Lemma get_fold_set (l : list NodeIO) (d0 : list (string * NodeIO)) (u : string) :
  NoDup (map io_uuid l) ->
  dict_get String.eqb (fold_left (fun d io => dict_set String.eqb d (io_uuid io) io) l d0) u
  = match find_io u l with Some io => Some io | None => dict_get String.eqb d0 u end.
Proof.
  revert d0. induction l as [|x l IH]; intros d0 Hnd; simpl; [reflexivity|].
  inversion Hnd as [|? ? Hn Hnd']; subst.
  rewrite IH by exact Hnd'. rewrite (PyDictFacts.dict_get_set String.eqb String.eqb_eq).
  destruct (String.eqb (io_uuid x) u) eqn:E.
  - apply String.eqb_eq in E. subst u. rewrite find_io_notin by exact Hn.
    rewrite String.eqb_refl. reflexivity.
  - destruct (find_io u l); [reflexivity|].
    assert (E' : String.eqb u (io_uuid x) = false)
      by (apply String.eqb_neq; intros Heq; apply String.eqb_neq in E; apply E; symmetry; exact Heq).
    rewrite E'. reflexivity.
Qed.

(** With unique uuids, the [inputs] / [outputs] dict built from the list
    answers every uuid as [get_input] / [get_output] does, and is cached:
    asking again returns the same dict. *)
Theorem ios_dict_matches_get (p : IOList) :
  NoDup (map io_uuid (_ios p)) -> _ios_dict p = None ->
  (forall u, dict_get String.eqb (fst (ios_dict p)) u = get_io p u)
  /\ ios_dict (snd (ios_dict p)) = ios_dict p.
Proof.
  intros Hnd Hc. unfold ios_dict. rewrite Hc. simpl. split.
  - intros u. rewrite get_fold_set by exact Hnd. unfold get_io.
    destruct (find_io u (_ios p)); reflexivity.
  - reflexivity.
Qed.

Definition two_inputs : IOList := mkIOs [mkIO 1 "a"; mkIO 2 "b"] None.

Lemma ios_dict_matches_get_witness :
  NoDup (map io_uuid (_ios two_inputs)) /\ _ios_dict two_inputs = None
  /\ dict_get String.eqb (fst (ios_dict two_inputs)) "b" = Some (mkIO 2 "b").
Proof.
  assert (H1 : NoDup (map io_uuid (_ios two_inputs))).
  { simpl. constructor; [simpl; intros [H|[]]; discriminate H | constructor; [tauto | constructor]]. }
  assert (H2 : _ios_dict two_inputs = None) by reflexivity.
  split; [exact H1|]. split; [exact H2|].
  rewrite (proj1 (ios_dict_matches_get two_inputs H1 H2)). reflexivity.
Defined.

End NodePortsFacts.

Module LibraryExtraFacts.

Import PyDict Registry Library LibraryFacts.
Open Scope nat_scope.
Open Scope string_scope.
Open Scope list_scope.

Lemma get_in (recs : Records) (p : Path) (r : ShelfRecord) :
  dict_get path_eqb recs p = Some r -> In (p, r) recs.
Proof.
  induction recs as [|[k v] recs IH]; simpl; [discriminate|].
  destruct (path_eqb p k) eqn:E.
  - intros H. injection H as ->. apply path_eqb_iff in E. subst. left. reflexivity.
  - intros H. right. exact (IH H).
Qed.

(** [_ensure_path_exists(path)] gives every prefix [path[:i]] an entry,
    keeps the entries that were there, creates the missing ones named by
    their last segment with an empty description and no ids, and touches
    no other path. *)
Theorem ensure_path_exists_effect (q : Path) (recs : Records) (p : Path) :
  (In p (prefixes q) ->
   dict_get path_eqb (_ensure_path_exists q recs) p
   = Some (match dict_get path_eqb recs p with
           | Some r => r
           | None => mkRecord (last p "") "" []
           end))
  /\ (~ In p (prefixes q) ->
      dict_get path_eqb (_ensure_path_exists q recs) p = dict_get path_eqb recs p).
Proof.
  rewrite get_ensure. split; intros H.
  - assert (E : existsb (path_eqb p) (prefixes q) = true).
    { apply existsb_exists. exists p. split; [exact H | apply path_eqb_iff; reflexivity]. }
    rewrite E. reflexivity.
  - destruct (existsb (path_eqb p) (prefixes q)) eqn:E; [|reflexivity].
    apply existsb_exists in E. destruct E as [x [Hx Ex]]. apply path_eqb_iff in Ex. subst. contradiction.
Qed.

Lemma push_extends (ids n : list string) :
  exists added, fold_left _unique_push ids n = n ++ added.
Proof.
  revert n. induction ids as [|y ids IH]; intros n; simpl.
  - exists []. rewrite app_nil_r. reflexivity.
  - destruct (IH (_unique_push n y)) as [a Ha]. rewrite Ha. unfold _unique_push.
    destruct (py_in String.eqb y n).
    + exists a. reflexivity.
    + exists (y :: a). rewrite <- app_assoc. reflexivity.
Qed.

Lemma push_nodup (ids n : list string) :
  NoDup n -> NoDup (fold_left _unique_push ids n).
Proof.
  revert n. induction ids as [|y ids IH]; intros n Hn; simpl; [exact Hn|].
  apply IH. unfold _unique_push. destruct (py_in String.eqb y n) eqn:E; [exact Hn|].
  apply NoDup_app; [exact Hn | constructor; [tauto | constructor] |].
  intros x Hx [Hy|[]]. subst x. apply py_in_iff in Hx. congruence.
Qed.

(** [add_nodes(nodes, shelf)]: an empty path raises; otherwise the path and
    its prefixes exist afterwards, the record at the path keeps its name,
    description and ids and gains, at the end, each new id not yet listed
    (so every given id is listed, and a duplicate-free list stays so), and
    no path outside the prefixes changes. *)
Theorem add_nodes_effect (ns : list NodeClass) (q : Path) (recs : Records) :
  add_nodes ns (PathStr "") recs = None
  /\ add_nodes ns (PathList []) recs = None
  /\ (q <> [] ->
      exists recs' r, add_nodes ns (PathList q) recs = Some recs'
      /\ dict_get path_eqb recs' q = Some r
      /\ rec_name r = rec_name (ensure_rec q (dict_get path_eqb recs q))
      /\ rec_description r = rec_description (ensure_rec q (dict_get path_eqb recs q))
      /\ (exists added, nodes_ref r = nodes_ref (ensure_rec q (dict_get path_eqb recs q)) ++ added)
      /\ (forall x, In x (map node_id ns) -> In x (nodes_ref r))
      /\ (NoDup (nodes_ref (ensure_rec q (dict_get path_eqb recs q))) -> NoDup (nodes_ref r))
      /\ (forall p, p <> q -> dict_get path_eqb recs' p = dict_get path_eqb (_ensure_path_exists q recs) p)).
Proof.
  split; [reflexivity|]. split; [reflexivity|].
  intros Hq. unfold add_nodes.
  assert (Hn : _norm_path (PathList q) = Some q) by (destruct q; [contradiction | reflexivity]).
  rewrite Hn.
  assert (Hg : dict_get path_eqb (_ensure_path_exists q recs) q = Some (ensure_rec q (dict_get path_eqb recs q))).
  { rewrite get_ensure, (self_prefix q Hq). reflexivity. }
  rewrite Hg.
  set (r0 := ensure_rec q (dict_get path_eqb recs q)).
  eexists. eexists. split; [reflexivity|].
  split; [rewrite get_set_path; rewrite (proj2 (path_eqb_iff q q) eq_refl); reflexivity|].
  simpl. split; [reflexivity|]. split; [reflexivity|].
  split; [apply push_extends|]. split; [intros x Hx; apply push_adds; exact Hx|].
  split; [apply push_nodup|].
  intros p Hp. rewrite get_set_path.
  destruct (path_eqb p q) eqn:E; [apply path_eqb_iff in E; contradiction | reflexivity].
Qed.

Lemma ensure_noop (q : Path) (recs : Records) :
  (forall p, In p (prefixes q) -> dict_get path_eqb recs p <> None) ->
  forall p, dict_get path_eqb (_ensure_path_exists q recs) p = dict_get path_eqb recs p.
Proof.
  intros H p. rewrite get_ensure.
  destruct (existsb (path_eqb p) (prefixes q)) eqn:E; [|reflexivity].
  apply existsb_exists in E. destruct E as [x [Hx Ex]]. apply path_eqb_iff in Ex. subst x.
  unfold ensure_rec. destruct (dict_get path_eqb recs p) eqn:G; [reflexivity|].
  exfalso. exact (H p Hx G).
Qed.

(** [add_nodes] is idempotent: adding the same nodes under the same path
    again leaves every entry as the first call left it. *)
Theorem add_nodes_idempotent (ns : list NodeClass) (sh : PathLike) (recs recs' : Records) :
  add_nodes ns sh recs = Some recs' ->
  exists recs2, add_nodes ns sh recs' = Some recs2
  /\ forall p, dict_get path_eqb recs2 p = dict_get path_eqb recs' p.
Proof.
  unfold add_nodes. destruct (_norm_path sh) as [q|] eqn:Hn; [|discriminate].
  assert (Hq : q <> []).
  { destruct sh as [s|l]; simpl in Hn.
    - destruct (String.eqb s ""); [discriminate|]. injection Hn as <-. discriminate.
    - destruct l; [discriminate|]. injection Hn as <-. discriminate. }
  assert (Hg : dict_get path_eqb (_ensure_path_exists q recs) q = Some (ensure_rec q (dict_get path_eqb recs q))).
  { rewrite get_ensure, (self_prefix q Hq). reflexivity. }
  rewrite Hg. intros H. injection H as <-.
  set (r1 := mkRecord _ _ _).
  set (recs1 := dict_set path_eqb (_ensure_path_exists q recs) q r1).
  assert (Hall : forall p, In p (prefixes q) -> dict_get path_eqb recs1 p <> None).
  { intros p Hp. unfold recs1. rewrite get_set_path.
    destruct (path_eqb p q); [discriminate|]. rewrite get_ensure.
    assert (E : existsb (path_eqb p) (prefixes q) = true).
    { apply existsb_exists. exists p. split; [exact Hp | apply path_eqb_iff; reflexivity]. }
    rewrite E. discriminate. }
  assert (Hg1 : dict_get path_eqb (_ensure_path_exists q recs1) q = Some r1).
  { rewrite ensure_noop by exact Hall. unfold recs1. rewrite get_set_path, (proj2 (path_eqb_iff q q) eq_refl). reflexivity. }
  rewrite Hg1. eexists. split; [reflexivity|]. intros p.
  rewrite get_set_path, ensure_noop by exact Hall.
  destruct (path_eqb p q) eqn:E; [|reflexivity].
  apply path_eqb_iff in E. subst p.
  unfold recs1. rewrite get_set_path, (proj2 (path_eqb_iff q q) eq_refl).
  unfold r1. simpl. rewrite push_idem. reflexivity.
Qed.

Lemma add_nodes_idempotent_witness :
  add_nodes [add_class] (PathStr "Math") [] = Some [(["Math"], mkRecord "Math" "" ["add"])]
  /\ exists recs2, add_nodes [add_class] (PathStr "Math") [(["Math"], mkRecord "Math" "" ["add"])]
                   = Some recs2.
Proof.
  assert (H : add_nodes [add_class] (PathStr "Math") [] = Some [(["Math"], mkRecord "Math" "" ["add"])])
    by reflexivity.
  split; [exact H|].
  destruct (add_nodes_idempotent [add_class] (PathStr "Math") [] _ H) as [recs2 [H2 _]].
  exists recs2. exact H2.
Defined.
Lemma get_filter_keep (P : Path * ShelfRecord -> bool) (recs : Records) (k : Path) :
  (forall kr, In kr recs -> P kr = false -> fst kr <> k) ->
  dict_get path_eqb (filter P recs) k = dict_get path_eqb recs k.
Proof.
  induction recs as [|[k0 v0] recs IH]; simpl; intros H; [reflexivity|].
  destruct (P (k0, v0)) eqn:Ep; simpl.
  - rewrite IH; [reflexivity|]. intros kr Hkr. apply H. right. exact Hkr.
  - assert (Hne : k0 <> k) by (apply (H (k0, v0)); [left; reflexivity | exact Ep]).
    destruct (path_eqb k k0) eqn:E.
    + apply path_eqb_iff in E. congruence.
    + rewrite IH; [reflexivity|]. intros kr Hkr. apply H. right. exact Hkr.
Qed.

Lemma get_filter_drop (P : Path * ShelfRecord -> bool) (recs : Records) (k : Path) :
  (forall kr, In kr recs -> fst kr = k -> P kr = false) ->
  dict_get path_eqb (filter P recs) k = None.
Proof.
  induction recs as [|[k0 v0] recs IH]; simpl; intros H; [reflexivity|].
  destruct (P (k0, v0)) eqn:Ep; simpl.
  - destruct (path_eqb k k0) eqn:E.
    + apply path_eqb_iff in E. subst. rewrite (H (k0, v0)) in Ep; [discriminate | left; reflexivity | reflexivity].
    + apply IH. intros kr Hkr. apply H. right. exact Hkr.
  - apply IH. intros kr Hkr. apply H. right. exact Hkr.
Qed.

(** [_remove_subtree(path)] raises when no key starts with [path];
    otherwise every entry under [path] (the shelf and its descendants) is
    gone, every other entry is kept, and removing the same path again
    raises. *)
Theorem remove_subtree_effect (q : Path) (recs : Records) :
  (existsb (fun kr => has_prefix q (fst kr)) recs = false -> _remove_subtree q recs = None)
  /\ (existsb (fun kr => has_prefix q (fst kr)) recs = true ->
      exists recs', _remove_subtree q recs = Some recs'
      /\ (forall k, dict_get path_eqb recs' k
                    = if has_prefix q k then None else dict_get path_eqb recs k)
      /\ _remove_subtree q recs' = None).
Proof.
  unfold _remove_subtree. split; intros H; rewrite H; [reflexivity|].
  eexists. split; [reflexivity|]. split.
  - intros k. destruct (has_prefix q k) eqn:Ek.
    + apply get_filter_drop. intros kr _ Hk. subst k. rewrite Ek. reflexivity.
    + apply get_filter_keep. intros kr _ Hp Hk. subst k.
      apply negb_false_iff in Hp. congruence.
  - destruct (existsb _ (filter _ recs)) eqn:E; [|reflexivity].
    apply existsb_exists in E. destruct E as [kr [Hin Hp]].
    apply filter_In in Hin. destruct Hin as [_ Hn]. rewrite Hp in Hn. discriminate.
Qed.

Lemma find_all_listing (reg : Registry) (nid : string) (c : NodeClass) (recs : Records) :
  dict_get String.eqb reg nid = Some c ->
  find_nodeid reg nid true recs = paths_listing nid recs.
Proof.
  intros H. unfold find_nodeid. rewrite H. unfold paths_listing.
  induction recs as [|[key rec] recs IH]; simpl; [reflexivity|].
  rewrite IH. destruct (py_in String.eqb nid (nodes_ref rec)); reflexivity.
Qed.

Lemma strip_idem (nid : string) (r : ShelfRecord) : strip_id nid (strip_id nid r) = strip_id nid r.
Proof.
  destruct r as [n d ids]. unfold strip_id. simpl. f_equal.
  induction ids as [|x ids IH]; simpl; [reflexivity|].
  destruct (String.eqb x nid) eqn:E; simpl; [exact IH|]. rewrite E. simpl. rewrite IH. reflexivity.
Qed.

Lemma strip_absent (nid : string) (r : ShelfRecord) : ~ In nid (nodes_ref r) -> strip_id nid r = r.
Proof.
  intros H. destruct r as [n d ids]. unfold strip_id. simpl in *. f_equal.
  induction ids as [|x ids IH]; simpl; [reflexivity|].
  destruct (String.eqb x nid) eqn:E.
  - apply String.eqb_eq in E. subst. exfalso. apply H. left. reflexivity.
  - simpl. rewrite IH; [reflexivity|]. intros Hin. apply H. right. exact Hin.
Qed.

Lemma strip_removes (nid : string) (r : ShelfRecord) : ~ In nid (nodes_ref (strip_id nid r)).
Proof.
  unfold strip_id. simpl. intros H. apply filter_In in H. destruct H as [_ H].
  rewrite String.eqb_refl in H. discriminate.
Qed.

Lemma fold_strip (nid : string) (L : list Path) :
  forall r p,
  dict_get path_eqb
    (fold_left (fun r path => match dict_get path_eqb r path with
                              | None => r
                              | Some rec => dict_set path_eqb r path (strip_id nid rec)
                              end) L r) p
  = if existsb (path_eqb p) L then option_map (strip_id nid) (dict_get path_eqb r p)
    else dict_get path_eqb r p.
Proof.
  induction L as [|x L IH]; intros r p; simpl; [reflexivity|].
  rewrite IH.
  assert (Hstep : dict_get path_eqb (match dict_get path_eqb r x with
                                     | None => r
                                     | Some rec => dict_set path_eqb r x (strip_id nid rec)
                                     end) p
                  = if path_eqb p x then option_map (strip_id nid) (dict_get path_eqb r p)
                    else dict_get path_eqb r p).
  { destruct (dict_get path_eqb r x) as [rec|] eqn:G.
    - rewrite get_set_path. destruct (path_eqb p x) eqn:E; [|reflexivity].
      apply path_eqb_iff in E. subst. rewrite G. reflexivity.
    - destruct (path_eqb p x) eqn:E; [|reflexivity].
      apply path_eqb_iff in E. subst. rewrite G. reflexivity. }
  rewrite Hstep.
  destruct (path_eqb p x), (existsb (path_eqb p) L); simpl; try reflexivity.
  destruct (dict_get path_eqb r p); simpl; [rewrite strip_idem|]; reflexivity.
Qed.

(** [remove_nodeclass(node)] for a registered id strips every occurrence
    of the id from each record, leaving names, descriptions and the other
    ids in order; for an id that does not resolve it changes nothing. *)
Theorem remove_nodeclass_effect (reg : Registry) (node : NodeClass) (recs : Records) :
  (dict_get String.eqb reg (node_id node) = None -> remove_nodeclass reg node recs = recs)
  /\ (forall c, dict_get String.eqb reg (node_id node) = Some c ->
      forall p, dict_get path_eqb (remove_nodeclass reg node recs) p
                = option_map (strip_id (node_id node)) (dict_get path_eqb recs p)
      /\ forall r, dict_get path_eqb (remove_nodeclass reg node recs) p = Some r ->
                   ~ In (node_id node) (nodes_ref r)).
Proof.
  split.
  - intros H. unfold remove_nodeclass, find_nodeid. rewrite H. reflexivity.
  - intros c Hc p.
    assert (Hget : dict_get path_eqb (remove_nodeclass reg node recs) p
                   = option_map (strip_id (node_id node)) (dict_get path_eqb recs p)).
    { unfold remove_nodeclass. rewrite fold_strip, (find_all_listing reg _ c recs Hc).
      destruct (existsb (path_eqb p) (paths_listing (node_id node) recs)) eqn:E; [reflexivity|].
      destruct (dict_get path_eqb recs p) as [r|] eqn:G; [|reflexivity]. simpl.
      rewrite strip_absent; [reflexivity|]. intros Hin.
      assert (Hl : In p (paths_listing (node_id node) recs)).
      { unfold paths_listing. apply in_map_iff. exists (p, r). split; [reflexivity|].
        apply filter_In. split; [apply get_in; exact G | apply py_in_iff; exact Hin]. }
      assert (Ht : existsb (path_eqb p) (paths_listing (node_id node) recs) = true).
      { apply existsb_exists. exists p. split; [exact Hl | apply path_eqb_iff; reflexivity]. }
      congruence. }
    split; [exact Hget|]. intros r Hr. rewrite Hget in Hr.
    destruct (dict_get path_eqb recs p); simpl in Hr; [|discriminate].
    injection Hr as <-. apply strip_removes.
Qed.

(** [find_nodeid(nodeid, all=False)] is the first hit of [all=True]. *)
Theorem find_nodeid_first (reg : Registry) (nid : string) (recs : Records) :
  find_nodeid reg nid false recs = firstn 1 (find_nodeid reg nid true recs).
Proof.
  unfold find_nodeid. destruct (dict_get String.eqb reg nid); [|reflexivity].
  induction recs as [|[key rec] recs IH]; simpl; [reflexivity|].
  destruct (py_in String.eqb nid (nodes_ref rec)); [reflexivity | exact IH].
Qed.

(** [get_node_by_id] returns a class exactly when the id is registered to
    it and some record of the store lists the id; otherwise it raises, as
    [has_node_id] reports. *)
Theorem get_node_by_id_iff (reg : Registry) (nid : string) (recs : Records) (c : NodeClass) :
  (get_node_by_id reg nid recs = Some c <->
   dict_get String.eqb reg nid = Some c /\ exists p r, In (p, r) recs /\ In nid (nodes_ref r))
  /\ (has_node_id reg nid recs = true <->
      (exists c', dict_get String.eqb reg nid = Some c')
      /\ exists p r, In (p, r) recs /\ In nid (nodes_ref r)).
Proof.
  assert (Hhas : has_node_id reg nid recs = true <->
      (exists c', dict_get String.eqb reg nid = Some c')
      /\ exists p r, In (p, r) recs /\ In nid (nodes_ref r)).
  { unfold has_node_id. rewrite find_nodeid_first.
    destruct (dict_get String.eqb reg nid) as [c'|] eqn:G.
    - rewrite (find_all_listing reg nid c' recs G). unfold paths_listing.
      split.
      + intros H. split; [exists c'; reflexivity|].
        destruct (filter _ recs) as [|[p r] l] eqn:F; [discriminate|].
        exists p, r. assert (Hin : In (p, r) (filter (fun kr => py_in String.eqb nid (nodes_ref (snd kr))) recs))
          by (rewrite F; left; reflexivity).
        apply filter_In in Hin. destruct Hin as [Hin Hp]. split; [exact Hin | apply py_in_iff; exact Hp].
      + intros [_ [p [r [Hin Hr]]]].
        destruct (filter _ recs) as [|x l] eqn:F; [|reflexivity].
        assert (Hf : In (p, r) (filter (fun kr => py_in String.eqb nid (nodes_ref (snd kr))) recs))
          by (apply filter_In; split; [exact Hin | apply py_in_iff; exact Hr]).
        rewrite F in Hf. contradiction.
    - unfold find_nodeid. rewrite G. simpl. split; [discriminate|].
      intros [[c' Hc] _]. discriminate. }
  split; [|exact Hhas].
  unfold get_node_by_id. destruct (has_node_id reg nid recs) eqn:H; simpl.
  - split; [intros Hg; split; [exact Hg | apply Hhas; reflexivity] | intros [Hg _]; exact Hg].
  - split; [discriminate|]. intros [Hg Hrest].
    assert (Ht : false = true) by (apply Hhas; split; [exists c; exact Hg | exact Hrest]).
    discriminate Ht.
Qed.

(** The tree in pre-order, with each shelf's own nodes. *)
Fixpoint preorder (s : Shelf) : list Shelf :=
  match s with
  | mkShelf _ _ _ subs => s :: List.concat (map preorder subs)
  end.

Lemma flatten_go (subs : list Shelf) :
  Forall (fun sub => flatten_shelf sub = (List.concat (map shelf_nodes (preorder sub)), preorder sub)) subs ->
  forall acc,
  (fix go (subs : list Shelf) (acc : list NodeClass * list Shelf) :=
     match subs with
     | [] => acc
     | sub :: subs' =>
         let '(subnodes, subshelves) := flatten_shelf sub in
         go subs' (fst acc ++ subnodes, snd acc ++ subshelves)
     end) subs acc
  = (fst acc ++ List.concat (map (fun sub => List.concat (map shelf_nodes (preorder sub))) subs),
     snd acc ++ List.concat (map preorder subs)).
Proof.
  induction 1 as [|sub subs Hsub HF IH]; intros [n sh]; simpl.
  - rewrite !app_nil_r. reflexivity.
  - rewrite Hsub, IH. simpl. rewrite !app_assoc. reflexivity.
Qed.

Lemma flatten_shelf_eq (s : Shelf) :
  flatten_shelf s = (List.concat (map shelf_nodes (preorder s)), preorder s).
Proof.
  induction s as [name d ns subs HF] using Shelf_ind_nested. simpl.
  rewrite (flatten_go subs HF). simpl. f_equal. f_equal. clear HF.
  induction subs as [|sub subs IH]; simpl; [reflexivity|].
  rewrite map_app, concat_app, IH. reflexivity.
Qed.

(** [flatten_shelf] lists the shelf and all its descendants in pre-order,
    and the nodes are those of these shelves, concatenated in the same
    order (duplicates kept); [flatten_shelves] concatenates this over its
    shelves. *)
Theorem flatten_shelf_preorder (s : Shelf) (shelves : list Shelf) :
  flatten_shelf s = (List.concat (map shelf_nodes (preorder s)), preorder s)
  /\ flatten_shelves shelves
     = (List.concat (map shelf_nodes (List.concat (map preorder shelves))),
        List.concat (map preorder shelves)).
Proof.
  split; [apply flatten_shelf_eq|].
  unfold flatten_shelves.
  assert (H : forall acc, fold_left (fun acc sh => let '(n, s) := flatten_shelf sh in (fst acc ++ n, snd acc ++ s))
                            shelves acc
              = (fst acc ++ List.concat (map shelf_nodes (List.concat (map preorder shelves))),
                 snd acc ++ List.concat (map preorder shelves))).
  { induction shelves as [|sh shs IH]; intros [n l]; simpl.
    - rewrite !app_nil_r. reflexivity.
    - rewrite flatten_shelf_eq, IH. simpl. rewrite map_app, concat_app, !app_assoc. reflexivity. }
  rewrite H. reflexivity.
Qed.

(** The loop of [get_node_in_shelf], from index [i]. *)
Fixpoint find_index (nid : string) (i : nat) (nodes : list NodeClass) : option (nat * NodeClass) :=
  match nodes with
  | [] => None
  | node :: nodes' => if String.eqb (node_id node) nid then Some (i, node) else find_index nid (S i) nodes'
  end.

Lemma get_node_in_shelf_index (s : Shelf) (nid : string) :
  get_node_in_shelf s nid = find_index nid 0 (shelf_nodes s).
Proof.
  unfold get_node_in_shelf. generalize 0. induction (shelf_nodes s) as [|x l IH]; intros k; simpl.
  - reflexivity.
  - destruct (String.eqb (node_id x) nid); [reflexivity | apply IH].
Qed.

Lemma find_index_shift (nid : string) (nodes : list NodeClass) :
  forall k, find_index nid k nodes
            = match find_index nid 0 nodes with Some (i, c) => Some (k + i, c) | None => None end.
Proof.
  induction nodes as [|x nodes IH]; intros k; simpl; [reflexivity|].
  destruct (String.eqb (node_id x) nid); [rewrite Nat.add_0_r; reflexivity|].
  rewrite (IH (S k)), (IH 1). destruct (find_index nid 0 nodes) as [[i c]|]; [|reflexivity].
  rewrite Nat.add_succ_r. reflexivity.
Qed.

(** [get_node_in_shelf] returns the first node of the shelf with the id,
    with its index, and raises exactly when no node of the shelf has it. *)
Theorem get_node_in_shelf_first (s : Shelf) (nid : string) :
  (get_node_in_shelf s nid = None <-> Forall (fun c => node_id c <> nid) (shelf_nodes s))
  /\ (forall i c, get_node_in_shelf s nid = Some (i, c) ->
      nth_error (shelf_nodes s) i = Some c /\ node_id c = nid
      /\ forall j c', j < i -> nth_error (shelf_nodes s) j = Some c' -> node_id c' <> nid).
Proof.
  rewrite get_node_in_shelf_index. generalize (shelf_nodes s) as nodes.
  induction nodes as [|x nodes [IHn IHs]]; simpl.
  - split; [split; intros; [constructor | reflexivity]|]. intros i c H. discriminate H.
  - rewrite find_index_shift. destruct (String.eqb (node_id x) nid) eqn:E; split.
    + split; [discriminate|]. intros H. inversion H as [|? ? Hx _]; subst.
      apply String.eqb_eq in E. contradiction.
    + intros i c H. injection H as <- <-. apply String.eqb_eq in E.
      split; [reflexivity|]. split; [exact E|]. intros j c' Hj. lia.
    + destruct (find_index nid 0 nodes) as [[i c]|] eqn:G; split.
      * discriminate.
      * intros H. inversion H as [|? ? _ Hn]; subst. apply IHn in Hn. discriminate Hn.
      * intros _. constructor; [apply String.eqb_neq; exact E | apply IHn; reflexivity].
      * intros; reflexivity.
    + destruct (find_index nid 0 nodes) as [[i c]|] eqn:G; [|discriminate].
      intros i' c' H. injection H as <- <-. simpl.
      destruct (IHs i c eq_refl) as [H1 [H2 H3]].
      split; [exact H1|]. split; [exact H2|].
      intros [|j] c'' Hj Hn.
      * simpl in Hn. injection Hn as <-. apply String.eqb_neq. exact E.
      * simpl in Hn. apply (H3 j c''); [lia | exact Hn].
Qed.

(** The paths of all shelves of the tree holding the id, in pre-order,
    each starting with the name of the shelf searched. *)
Fixpoint shelf_hits (nid : string) (s : Shelf) : list Path :=
  match s with
  | mkShelf name _ _ subs =>
      match get_node_in_shelf s nid with Some _ => [[name]] | None => [] end
      ++ List.concat (map (fun sub => map (cons name) (shelf_hits nid sub)) subs)
  end.

(** The subshelf loop of [deep_find_node] with [all] set and unset. *)
Fixpoint subs_all (nid name : string) (subs : list Shelf) (paths : list Path) : list Path :=
  match subs with
  | [] => paths
  | sub :: subs' =>
      let path := deep_find_node sub nid true in
      if Nat.ltb 0 (List.length path) then subs_all nid name subs' (paths ++ map (cons name) path)
      else subs_all nid name subs' paths
  end.

Fixpoint subs_first (nid name : string) (subs : list Shelf) (paths : list Path) : list Path :=
  match subs with
  | [] => paths
  | sub :: subs' =>
      let path := deep_find_node sub nid true in
      if Nat.ltb 0 (List.length path) then paths ++ map (cons name) path
      else subs_first nid name subs' paths
  end.

Lemma deep_find_node_eq (name d : string) (ns : list NodeClass) (subs : list Shelf)
    (nid : string) (all : bool) :
  deep_find_node (mkShelf name d ns subs) nid all
  = let here := match get_node_in_shelf (mkShelf name d ns subs) nid with
                | Some _ => [[name]] | None => [] end in
    if negb all && Nat.ltb 0 (List.length here) then here
    else if all then subs_all nid name subs here else subs_first nid name subs here.
Proof.
  cbn [deep_find_node]. cbv zeta.
  destruct (negb all && _); [reflexivity|].
  generalize (match get_node_in_shelf (mkShelf name d ns subs) nid with
              | Some _ => [[name]] | None => [] end).
  destruct all; induction subs as [|sub subs IH]; intros paths; simpl; try reflexivity;
    destruct (Nat.ltb 0 (List.length (deep_find_node sub nid true))); try reflexivity; apply IH.
Qed.

Lemma subs_all_hits (nid name : string) (subs : list Shelf) :
  Forall (fun sub => deep_find_node sub nid true = shelf_hits nid sub) subs ->
  forall paths, subs_all nid name subs paths
                = paths ++ List.concat (map (fun sub => map (cons name) (shelf_hits nid sub)) subs).
Proof.
  induction 1 as [|sub subs Hsub HF IH]; intros paths; simpl.
  - rewrite app_nil_r. reflexivity.
  - rewrite Hsub. destruct (shelf_hits nid sub) as [|h t] eqn:E; simpl.
    + apply IH.
    + rewrite IH, <- app_assoc. reflexivity.
Qed.

(** [deep_find_node(shelf, nodeid)] (with [all=True]) finds every shelf of
    the tree holding the id, in pre-order, as the path of names from
    [shelf] down. *)
Theorem deep_find_node_all (s : Shelf) (nid : string) :
  deep_find_node s nid true = shelf_hits nid s.
Proof.
  induction s as [name d ns subs HF] using Shelf_ind_nested.
  rewrite deep_find_node_eq. cbv zeta. simpl negb. simpl andb. cbv iota.
  rewrite (subs_all_hits nid name subs HF). reflexivity.
Qed.


End LibraryExtraFacts.
